(** * Gallery upload lifecycle of the admin back office

    A shallow embedding of the client-side gallery managers
    ([ProjectGalleryManager] and [BlogGalleryManager]): the pending-image
    store with its local-storage mirror, the save/reconcile routine, the
    cleanup calls and the display-order swaps.

    Conventions of the embedding:
    - JavaScript numbers that hold counts and display orders are integers
      ([Z]); identifiers assigned by the persistence layer are [nat].
    - A JavaScript string is a [string] whose characters are code units
      below 256.  The only falsy string is the empty one.
    - React state is a record that each handler reads and returns updated;
      a handler sees the state of the render it was created in, and the
      updater callbacks ([setPendingImages (prev => ...)]) are applied to
      that same state.
    - An effect belongs to the render that created it, and so does the
      cleanup it returns.  React runs that cleanup at unmount and, for an
      effect with dependencies, also before the effect of a later render in
      which one of them has changed ([rerender], [blogRerender]).
    - The browser's [localStorage], the remote persistence API and the
      upload provider live in a [World].  Every remote call takes one tick
      of the world's clock and is recorded in its log; whether the call
      made at a given tick is rejected is read from the world itself
      ([fail_at]), so that every interleaving of failures is covered by
      quantifying over worlds.  [poor_reply_at] says in the same way whether
      a call that is answered is answered poorly: a gallery request whose
      body is no array, a cleanup that reports no success. *)

From stdpp Require Import gmap strings pretty list.
From Stdlib Require Import ZArith Ascii.

Local Open Scope Z_scope.

(** ** Records *)

(** [type PendingImage = { url; caption; displayOrder }] *)
Module Pending.
Record t := mk { url : string; caption : string; displayOrder : Z }.
End Pending.
Abbreviation PendingImage := Pending.t.

(** A row of the project gallery as the client sees it.  The schema module is
    outside this development; the fields are those the manager
    reads ([id], [imageUrl], [displayOrder], [caption]) and the owner it
    writes ([projectId]).  [displayOrder] is nullable. *)
Module Gallery.
Record t := mk {
  id : nat;
  projectId : nat;
  imageUrl : string;
  caption : option string;
  displayOrder : option Z
}.
End Gallery.
Abbreviation ProjectGallery := Gallery.t.

(** [InsertProjectGallery], the body of a create request. *)
Module Insert.
Record t := mk {
  projectId : nat;
  imageUrl : string;
  caption : string;
  displayOrder : Z
}.
End Insert.
Abbreviation InsertProjectGallery := Insert.t.

Global Instance PendingImage_eq_dec : EqDecision PendingImage.
Proof. solve_decision. Defined.
Global Instance ProjectGallery_eq_dec : EqDecision ProjectGallery.
Proof. solve_decision. Defined.
Global Instance InsertProjectGallery_eq_dec : EqDecision InsertProjectGallery.
Proof. solve_decision. Defined.

(** ** Strings *)

(** Truthiness of a string: [!!s]. *)
Definition truthy (s : string) : bool :=
  match s with EmptyString => false | String _ _ => true end.

(** [s.split('?')[0]]: the part before the first question mark. *)
Fixpoint before_query (s : string) : string :=
  match s with
  | EmptyString => EmptyString
  | String c r => if Ascii.eqb c "?"%char then EmptyString else String c (before_query r)
  end.

(** White space and line terminators removed by [String.prototype.trim],
    among the code units below 256: TAB, LF, VT, FF, CR, SP and NBSP. *)
Definition is_white (c : ascii) : bool :=
  let n := Ascii.nat_of_ascii c in
  bool_decide (n ∈ [9; 10; 11; 12; 13; 32; 160]%nat).

Fixpoint trim_start (s : string) : string :=
  match s with
  | EmptyString => EmptyString
  | String c r => if is_white c then trim_start r else s
  end.

Fixpoint trim_end (s : string) : string :=
  match s with
  | EmptyString => EmptyString
  | String c r =>
      match trim_end r with
      | EmptyString => if is_white c then EmptyString else String c EmptyString
      | r' => String c r'
      end
  end.

Definition trim (s : string) : string := trim_end (trim_start s).

(** [url.split('?')[0].trim()], the de-duplication key of the save routine. *)
Definition normalize (url : string) : string := trim (before_query url).

(** ** Notifications and remote calls *)

Inductive Variant := VDefault | VDestructive.

Record ToastMsg := mkToast {
  title : string;
  description : string;
  variant : Variant
}.

Inductive Effect :=
  | Toast (t : ToastMsg)
  | ApiGetGallery (owner : nat)
  | AddProjectGalleryImage (body : InsertProjectGallery)
  | UpdateProjectGalleryImage (id : nat) (displayOrder : Z)
  | CommitUploads (sessionId : string) (fileUrls : list string)
  | CleanupUploads (sessionId : string) (preserveUrls : list string)
  | FilesCleanup (fileUrl : string) (preserveUrls : list string).

Global Instance Variant_eq_dec : EqDecision Variant.
Proof. solve_decision. Defined.
Global Instance ToastMsg_eq_dec : EqDecision ToastMsg.
Proof. solve_decision. Defined.
Global Instance Effect_eq_dec : EqDecision Effect.
Proof. solve_decision. Defined.

(** A value kept in [localStorage]: either the JSON text of a pending list
    (what [JSON.stringify] wrote, which [JSON.parse] reads back) or some other
    text on which [JSON.parse] throws. *)
Inductive Stored :=
  | StoredJson (images : list PendingImage)
  | StoredCorrupt (raw : string).

(** The empty string is the only stored text that [if (saved)] rejects; the
    JSON text of an array is never empty. *)
Definition stored_truthy (s : Stored) : bool :=
  match s with StoredJson _ => true | StoredCorrupt raw => truthy raw end.

(** [JSON.parse]: [None] stands for the exception. *)
Definition JSON_parse (s : Stored) : option (list PendingImage) :=
  match s with StoredJson l => Some l | StoredCorrupt _ => None end.

Definition JSON_stringify (l : list PendingImage) : Stored := StoredJson l.

(** ** The world: local storage, remote table, clock and log *)

Record World := mkWorld {
  table : list ProjectGallery;      (* rows of the gallery table, all owners *)
  next_id : nat;                    (* next identifier the table assigns *)
  clock : nat;                      (* number of remote calls made so far *)
  fail_at : nat → bool;             (* is the call made at this tick rejected? *)
  poor_reply_at : nat → bool;        (* does the call at this tick answer poorly? *)
  localStorage : gmap string Stored;
  log : list Effect                 (* calls and toasts, oldest first *)
}.

Definition set_table (f : list ProjectGallery → list ProjectGallery) (w : World) : World :=
  mkWorld (f (table w)) (next_id w) (clock w) (fail_at w) (poor_reply_at w)
          (localStorage w) (log w).
Definition set_next_id (n : nat) (w : World) : World :=
  mkWorld (table w) n (clock w) (fail_at w) (poor_reply_at w) (localStorage w) (log w).
Definition tick (w : World) : World :=
  mkWorld (table w) (next_id w) (S (clock w)) (fail_at w) (poor_reply_at w)
          (localStorage w) (log w).
Definition set_localStorage (f : gmap string Stored → gmap string Stored) (w : World) : World :=
  mkWorld (table w) (next_id w) (clock w) (fail_at w) (poor_reply_at w)
          (f (localStorage w)) (log w).
Definition emit (e : Effect) (w : World) : World :=
  mkWorld (table w) (next_id w) (clock w) (fail_at w) (poor_reply_at w)
          (localStorage w) (log w ++ [e]).

Definition toast (t s : string) (v : Variant) : World → World :=
  emit (Toast (mkToast t s v)).

(** ** The project gallery manager's state *)

Definition MAX_GALLERY_IMAGES : Z := 10.

Record Manager := mkManager {
  projectId : nat;
  isNewProject : bool;
  dynamicProjectId : nat;
  pendingImages : list PendingImage;
  projectGallery : option (list ProjectGallery);  (* cached query result, or not loaded *)
  uploadSessions : list string;                   (* the session set, in insertion order *)
  commitUploads : bool;                           (* does the hook provide the function? *)
  cleanupUploads : bool;
  showMaxImagesWarning : bool;
  isUploading : bool;
  modifiedOrders : gset nat
}.

Definition setPendingImages (l : list PendingImage) (m : Manager) : Manager :=
  mkManager (projectId m) (isNewProject m) (dynamicProjectId m) l (projectGallery m)
            (uploadSessions m) (commitUploads m) (cleanupUploads m)
            (showMaxImagesWarning m) (isUploading m) (modifiedOrders m).
Definition setShowMaxImagesWarning (b : bool) (m : Manager) : Manager :=
  mkManager (projectId m) (isNewProject m) (dynamicProjectId m) (pendingImages m)
            (projectGallery m) (uploadSessions m) (commitUploads m) (cleanupUploads m)
            b (isUploading m) (modifiedOrders m).
Definition setIsUploading (b : bool) (m : Manager) : Manager :=
  mkManager (projectId m) (isNewProject m) (dynamicProjectId m) (pendingImages m)
            (projectGallery m) (uploadSessions m) (commitUploads m) (cleanupUploads m)
            (showMaxImagesWarning m) b (modifiedOrders m).
Definition setModifiedOrders (s : gset nat) (m : Manager) : Manager :=
  mkManager (projectId m) (isNewProject m) (dynamicProjectId m) (pendingImages m)
            (projectGallery m) (uploadSessions m) (commitUploads m) (cleanupUploads m)
            (showMaxImagesWarning m) (isUploading m) s.

(** The mirror key [`pendingImages_project_${projectId}`]. *)
Definition mirror_key (projectId : nat) : string :=
  "pendingImages_project_" +:+ pretty projectId.

(** [(projectGallery?.length || 0) + pendingImages.length] *)
Definition currentImageCount (m : Manager) : Z :=
  Z.of_nat (length (default [] (projectGallery m))) + Z.of_nat (length (pendingImages m)).

(** [Math.max(...xs)] of a non-empty array, given by its first element and
    the rest. *)
Definition Math_max (x : Z) (rest : list Z) : Z := foldr Z.max x rest.

(** [image.displayOrder !== null ? image.displayOrder : 0], which is also
    [image.displayOrder || 0]. *)
Definition order_or_0 (img : ProjectGallery) : Z := default 0 (Gallery.displayOrder img).

(** [getNextOrderValue] *)
Definition getNextOrderValue (m : Manager) : Z :=
  match projectGallery m with
  | Some (image :: images) =>
      Math_max (order_or_0 image) (order_or_0 <$> images) + 1
  | _ =>
      match pendingImages m with
      | image :: images =>
          Math_max (Pending.displayOrder image) (Pending.displayOrder <$> images) + 1
      | [] => 1
      end
  end.

(** The argument of [handleFileUpload]: [string | string[]]. *)
Inductive UrlsArg := OneUrl (u : string) | ManyUrls (us : list string).

Definition urls_of (arg : UrlsArg) : list string :=
  match arg with OneUrl u => [u] | ManyUrls us => us end.

Definition plural (n : Z) : string := if 1 <? n then "s" else "".

(** The entries [handleFileUpload] builds from the admitted URLs. *)
Definition newPendingImages (nextOrder : Z) (urls : list string) : list PendingImage :=
  imap (λ idx url,
          Pending.mk url ("Project image " +:+ pretty (idx + 1)%nat)
                     (nextOrder + Z.of_nat idx)) urls.

(** Appending to the pending list and writing the whole list to the mirror,
    as the updater passed to [setPendingImages] does. *)
Definition appendPending (added : list PendingImage) (mw : Manager * World)
  : Manager * World :=
  let updatedPendingImages := pendingImages mw.1 ++ added in
  (setPendingImages updatedPendingImages mw.1,
   set_localStorage
     (insert (mirror_key (projectId mw.1)) (JSON_stringify updatedPendingImages)) mw.2).

(** [handleFileUpload] *)
Definition handleFileUpload (arg : UrlsArg) (m : Manager) (w : World) : Manager * World :=
  let urls := urls_of arg in
  let n := Z.of_nat (length urls) in
  let totalAfterAdd := currentImageCount m + n in
  if MAX_GALLERY_IMAGES <? totalAfterAdd then
    let allowedToAdd := Z.max 0 (MAX_GALLERY_IMAGES - currentImageCount m) in
    if 0 <? allowedToAdd then
      let limitedUrls := take (Z.to_nat allowedToAdd) urls in
      let nextOrder := getNextOrderValue m in
      let '(m1, w1) := appendPending (newPendingImages nextOrder limitedUrls) (m, w) in
      (m1, toast "Maximum images reached"
             ("Added " +:+ pretty allowedToAdd +:+ " image(s). Projects can have a maximum of "
                +:+ pretty MAX_GALLERY_IMAGES +:+ " images.")
             VDefault w1)
    else
      (setShowMaxImagesWarning true m,
       toast "Maximum images reached"
             ("Projects can have a maximum of " +:+ pretty MAX_GALLERY_IMAGES
                +:+ " images. Delete some images to add more.")
             VDestructive w)
  else
    let nextOrder := getNextOrderValue m in
    let '(m1, w1) := appendPending (newPendingImages nextOrder urls) (m, w) in
    (m1, toast "Images added"
           (pretty n +:+ " image" +:+ plural n +:+ " ready to be saved.")
           VDefault w1).

(** ** Asynchronous calls

    An [await]ed call either resolves with a value or is rejected; a
    rejection propagates through the code that follows until a [catch]. *)

Inductive Error := RequestFailed (at_tick : nat).

Inductive Reply (A : Type) :=
  | Resolved (a : A)
  | Rejected (e : Error).
Arguments Resolved {A} a.
Arguments Rejected {A} e.

Definition Async (A : Type) : Type := World → Reply A * World.

Definition ret {A} (a : A) : Async A := λ w, (Resolved a, w).

Definition throw {A} (e : Error) : Async A := λ w, (Rejected e, w).

Definition bind {A B} (c : Async A) (k : A → Async B) : Async B :=
  λ w, match c w with
       | (Resolved a, w1) => k a w1
       | (Rejected e, w1) => (Rejected e, w1)
       end.

Definition try_catch {A} (c : Async A) (handler : Error → Async A) : Async A :=
  λ w, match c w with
       | (Resolved a, w1) => (Resolved a, w1)
       | (Rejected e, w1) => handler e w1
       end.

Definition act (f : World → World) : Async unit := λ w, (Resolved (), f w).

Global Instance Async_ret : MRet Async := @ret.
Global Instance Async_bind : MBind Async := λ A B k c, bind c k.

(** A remote call: it is logged, takes one tick, and is rejected when the
    world says so; otherwise [serve] computes the answer. *)
Definition remote {A} (e : Effect) (serve : nat → World → A * World) : Async A :=
  λ w, let t := clock w in
       let w1 := tick (emit e w) in
       if fail_at w t then (Rejected (RequestFailed t), w1)
       else let '(a, w2) := serve t w1 in (Resolved a, w2).

(** Modelled from the spec: the remote persistence API, which is not among
    the sources.  [GET /gallery?owner=ID] answers the owner's rows, in table
    order; [None] is an answer whose body is no array. *)
Definition apiGetGallery (owner : nat) : Async (option (list ProjectGallery)) :=
  remote (ApiGetGallery owner)
    (λ t w, (if poor_reply_at w t then None
             else Some (filter (λ row, Gallery.projectId row = owner) (table w)), w)).

(** Modelled from the spec: [POST /gallery] of the remote persistence API
    (body: owner, image URL, caption, display order), which creates one row
    with an identifier of the persistence layer's choosing and answers it. *)
Definition addProjectGalleryImage (body : InsertProjectGallery) : Async ProjectGallery :=
  remote (AddProjectGalleryImage body)
    (λ _ w, let row := Gallery.mk (next_id w) (Insert.projectId body) (Insert.imageUrl body)
                                  (Some (Insert.caption body))
                                  (Some (Insert.displayOrder body)) in
            (row, set_next_id (S (next_id w)) (set_table (λ rows, rows ++ [row]) w))).

Definition set_order (id : nat) (displayOrder : Z) (row : ProjectGallery) : ProjectGallery :=
  if decide (Gallery.id row = id)
  then Gallery.mk (Gallery.id row) (Gallery.projectId row) (Gallery.imageUrl row)
                  (Gallery.caption row) (Some displayOrder)
  else row.

(** Modelled from the spec: [PATCH /gallery/{id}] of the remote persistence
    API with a display order, a partial update of the row with that
    identifier. *)
Definition updateProjectGalleryImage (id : nat) (displayOrder : Z) : Async unit :=
  remote (UpdateProjectGalleryImage id displayOrder)
    (λ _ w, ((), set_table (fmap (set_order id displayOrder)) w)).

(** The upload provider's [commit], [cleanup] and single-file cleanup: only
    the calls themselves matter here, so they leave the table alone. *)
Definition commitUploadsCall (sessionId : string) (fileUrls : list string) : Async unit :=
  remote (CommitUploads sessionId fileUrls) (λ _ w, ((), w)).

Definition cleanupUploadsCall (sessionId : string) (preserveUrls : list string) : Async bool :=
  remote (CleanupUploads sessionId preserveUrls) (λ t w, (negb (poor_reply_at w t), w)).

Definition filesCleanupCall (fileUrl : string) (preserveUrls : list string) : Async unit :=
  remote (FilesCleanup fileUrl preserveUrls) (λ _ w, ((), w)).

(** A call whose promise nobody awaits: its request goes out, its outcome is
    only written to the console. *)
Definition fire {A} (c : Async A) (w : World) : World := (c w).2.

(** ** Saving: [saveGalleryImages] *)

Definition nonempty {A} (l : list A) : bool :=
  match l with [] => false | _ :: _ => true end.

(** The first part of [saveGalleryImages]: the list it will work with, from
    the state and the mirror. *)
Definition loadedPendingImages (m : Manager) (w : World) : list PendingImage :=
  let pendingImages := pendingImages m in
  match localStorage w !! mirror_key (projectId m) with
  | Some savedPendingImages =>
      if stored_truthy savedPendingImages then
        match JSON_parse savedPendingImages with
        | Some parsedImages =>
            if nonempty parsedImages && negb (nonempty pendingImages) then parsedImages
            else if nonempty parsedImages && nonempty pendingImages then
              let existingUrls := Pending.url <$> pendingImages in
              let newImages :=
                filter (λ img, Pending.url img ∉ existingUrls) parsedImages in
              if nonempty newImages then pendingImages ++ newImages else pendingImages
            else pendingImages
        | None => pendingImages
        end
      else pendingImages
  | None => pendingImages
  end.

(** [existingImageUrls] of the save routine, from the answer to the gallery
    request, or from the cached gallery when the answer is no array. *)
Definition existingImageUrls (currentGallery : option (list ProjectGallery)) (m : Manager)
  : list string :=
  match currentGallery with
  | Some rows => Gallery.imageUrl <$> rows
  | None => default [] (fmap (M:=list) Gallery.imageUrl <$> projectGallery m)
  end.

(** The predicate of the filter that keeps the truly new images. *)
Definition isNew (existingImageUrls : list string) (pendingImg : PendingImage) : bool :=
  let normalizedPendingUrl := normalize (Pending.url pendingImg) in
  negb (existsb (λ existingUrl, String.eqb (normalize existingUrl) normalizedPendingUrl)
                existingImageUrls).

(** The loop that persists the new images, one after the other. *)
Fixpoint persistAll (owner : nat) (newPendingImages : list PendingImage) : Async unit :=
  match newPendingImages with
  | [] => ret ()
  | pendingImage :: rest =>
      if truthy (Pending.url pendingImage) then
        let galleryImage :=
          Insert.mk owner (Pending.url pendingImage) (Pending.caption pendingImage)
                    (Pending.displayOrder pendingImage) in
        (try_catch (addProjectGalleryImage galleryImage ;; ret ()) (λ error, throw error)) ;;
        persistAll owner rest
      else persistAll owner rest
  end.

(** The loop that commits every tracked session with the same URL list. *)
Fixpoint commitAll (sessions : list string) (fileUrls : list string) : Async unit :=
  match sessions with
  | [] => ret ()
  | sessionId :: rest => commitUploadsCall sessionId fileUrls ;; commitAll rest fileUrls
  end.

(** What the [try] block of the save routine did when it ended normally. *)
Inductive SaveEnd := Deferred | Saved.

(** [if (commitUploads && uploadSessions.size > 0) { for (...) await commitUploads(...) }] *)
Definition commitPhase (m : Manager) (fileUrls : list string) : Async unit :=
  if commitUploads m && nonempty (uploadSessions m)
  then commitAll (uploadSessions m) fileUrls
  else ret ().

Definition toastDeferred (n : Z) : Effect :=
  Toast (mkToast "Images saved"
           (pretty n +:+ " image" +:+ plural n +:+ " will be added after project creation.")
           VDefault).

Definition toastSaved (n : Z) : Effect :=
  Toast (mkToast "Gallery updated"
           (pretty n +:+ " image" +:+ (if (1 <? n) || (n =? 0) then "s" else "")
              +:+ " added to the gallery successfully.")
           VDefault).

Definition toastSaveFailed : Effect :=
  Toast (mkToast "Save failed"
           "Failed to add some images to the gallery. Please try again." VDestructive).

(** The [try] block of [saveGalleryImages]. *)
Definition saveTry (m : Manager) (loaded : list PendingImage) : Async SaveEnd :=
  if isNewProject m then
    commitPhase m (Pending.url <$> loaded) ;;
    act (emit (toastDeferred (Z.of_nat (length loaded)))) ;;
    ret Deferred
  else
    currentGallery ← apiGetGallery (dynamicProjectId m);
    let existingImageUrls := existingImageUrls currentGallery m in
    let newPendingImages := filter (λ p, isNew existingImageUrls p = true) loaded in
    persistAll (dynamicProjectId m) newPendingImages ;;
    commitPhase m ((Pending.url <$> pendingImages m) ++ existingImageUrls) ;;
    act (emit (toastSaved (Z.of_nat (length newPendingImages)))) ;;
    act (set_localStorage (delete (mirror_key (projectId m)))) ;;
    ret Saved.

Inductive SaveOutcome :=
  | Returned
  | Threw (e : Error).

(** [saveGalleryImages] *)
Definition saveGalleryImages (m : Manager) (w : World) : SaveOutcome * Manager * World :=
  let loaded := loadedPendingImages m w in
  if negb (nonempty loaded) then (Returned, m, w)
  else
    let m1 := setIsUploading true m in
    match saveTry m loaded w with
    | (Resolved Deferred, w1) => (Returned, setIsUploading false m1, w1)
    | (Resolved Saved, w1) =>
        (Returned,
         setIsUploading false (setShowMaxImagesWarning false (setPendingImages [] m1)),
         w1)
    | (Rejected error, w1) =>
        (Threw error, setIsUploading false m1, emit toastSaveFailed w1)
    end.

(** ** Cleanup on unmount *)

(** The cleanup function returned by the unmount effect of the project
    gallery manager. *)
Definition unmountCleanup (m : Manager) (w : World) : World :=
  if nonempty (uploadSessions m) && cleanupUploads m then
    let existingImageUrls :=
      match projectGallery m with
      | Some gallery => filter (λ u, truthy u = true) (Gallery.imageUrl <$> gallery)
      | None => []
      end in
    let pendingImageUrls := Pending.url <$> pendingImages m in
    let allUrlsToPreserve := existingImageUrls ++ pendingImageUrls in
    foldl (λ w sessionId, fire (cleanupUploadsCall sessionId allUrlsToPreserve) w)
          w (uploadSessions m)
  else w.

(** ** Deleting one pending image *)

(** [handleDeletePendingImage].  [splice(index, 1)] and
    [filter((_, i) => i !== index)] both drop the entry at [index] and
    nothing else, which is [delete index]. *)
Definition handleDeletePendingImage (index : nat) (m : Manager) (w : World)
  : Manager * World :=
  let pendingImage := pendingImages m !! index in
  let m1 := setPendingImages (delete index (pendingImages m)) m in
  match pendingImage with
  | Some p =>
      if truthy (Pending.url p) then
        let existingImageUrls :=
          default [] (fmap (M:=list) Gallery.imageUrl <$> projectGallery m) in
        if bool_decide (Pending.url p ∈ existingImageUrls) then
          (setShowMaxImagesWarning false m1, w)
        else
          let otherPendingUrls := Pending.url <$> delete index (pendingImages m) in
          let w1 :=
            (try_catch
               (filesCleanupCall (Pending.url p) (existingImageUrls ++ otherPendingUrls))
               (λ err, ret ()) w).2 in
          (setShowMaxImagesWarning false m1, w1)
      else (setShowMaxImagesWarning false m1, w)
  | None => (setShowMaxImagesWarning false m1, w)
  end.

(** ** Display order of saved images *)

(** The two halves of [handleUpdateImageOrder] around its [await]: the
    request goes out, and later its outcome is handled.  The time stamp of
    [markEdited] serves the display only and is left out. *)
Definition updateOrderRequest (id : nat) (displayOrder : Z) (m : Manager) (w : World)
  : Reply unit * Manager * World :=
  let m1 := setModifiedOrders ({[id]} ∪ modifiedOrders m) m in
  let '(r, w1) := updateProjectGalleryImage id displayOrder w in
  (r, m1, w1).

Definition updateOrderSettled (id : nat) (r : Reply unit) (m : Manager) (w : World)
  : Manager * World :=
  match r with
  | Resolved _ =>
      (setModifiedOrders (modifiedOrders m ∖ {[id]}) m,
       toast "Display order updated" "Image display order has been updated successfully."
             VDefault w)
  | Rejected _ =>
      (m, toast "Update failed"
                "Failed to update the image display order. Please try again."
                VDestructive w)
  end.

(** [handleUpdateImageOrder] *)
Definition handleUpdateImageOrder (id : nat) (displayOrder : option Z)
    (m : Manager) (w : World) : Manager * World :=
  match displayOrder with
  | None => (m, w)
  | Some d =>
      let '(r, m1, w1) := updateOrderRequest id d m w in
      updateOrderSettled id r m1 w1
  end.

(** Two calls of [handleUpdateImageOrder] made one after the other without
    awaiting the first: both requests go out, then both outcomes are
    handled. *)
Definition twoOrderUpdates (id1 : nat) (d1 : Z) (id2 : nat) (d2 : Z)
    (m : Manager) (w : World) : Manager * World :=
  let '(r1, m1, w1) := updateOrderRequest id1 d1 m w in
  let '(r2, m2, w2) := updateOrderRequest id2 d2 m1 w1 in
  let '(m3, w3) := updateOrderSettled id1 r1 m2 w2 in
  updateOrderSettled id2 r2 m3 w3.

(** [Array.prototype.sort] with a comparator: a stable sort, here by
    insertion from the right end. *)
Fixpoint sort_insert {A} (cmp : A → A → Z) (x : A) (l : list A) : list A :=
  match l with
  | [] => [x]
  | y :: r => if cmp x y <=? 0 then x :: y :: r else y :: sort_insert cmp x r
  end.

Definition Array_sort {A} (cmp : A → A → Z) (l : list A) : list A :=
  foldr (sort_insert cmp) [] l.

(** [img.displayOrder !== null && img.displayOrder < currentOrder] *)
Definition below (currentOrder : Z) (img : ProjectGallery) : bool :=
  match Gallery.displayOrder img with
  | Some d => d <? currentOrder
  | None => false
  end.

Definition above (currentOrder : Z) (img : ProjectGallery) : bool :=
  match Gallery.displayOrder img with
  | Some d => currentOrder <? d
  | None => false
  end.

(** [moveImageOrderUp] *)
Definition moveImageOrderUp (id : nat) (currentOrder : option Z)
    (m : Manager) (w : World) : Manager * World :=
  match projectGallery m, currentOrder with
  | Some gallery, Some cur =>
      let higherImages :=
        Array_sort (λ a b, order_or_0 b - order_or_0 a)
                   (filter (λ img, below cur img = true) gallery) in
      match higherImages with
      | targetImage :: _ =>
          twoOrderUpdates id (order_or_0 targetImage) (Gallery.id targetImage) cur m w
      | [] => (m, w)
      end
  | _, _ => (m, w)
  end.

(** [moveImageOrderDown] *)
Definition moveImageOrderDown (id : nat) (currentOrder : option Z)
    (m : Manager) (w : World) : Manager * World :=
  match projectGallery m, currentOrder with
  | Some gallery, Some cur =>
      let lowerImages :=
        Array_sort (λ a b, order_or_0 a - order_or_0 b)
                   (filter (λ img, above cur img = true) gallery) in
      match lowerImages with
      | targetImage :: _ =>
          twoOrderUpdates id (order_or_0 targetImage) (Gallery.id targetImage) cur m w
      | [] => (m, w)
      end
  | _, _ => (m, w)
  end.

(** ** The blog gallery manager *)

Module BlogRow.
Record t := mk { id : nat; imageUrl : string; caption : option string }.
End BlogRow.
Abbreviation BlogGallery := BlogRow.t.

Record Blog := mkBlog {
  isAddDialogOpen : bool;
  uploadSession : string;
  uploadedFiles : list string;
  isCommitted : bool;
  galleryImages : option (list BlogGallery)   (* the cached gallery, when it is an array *)
}.

Definition setUploadedFiles (l : list string) (b : Blog) : Blog :=
  mkBlog (isAddDialogOpen b) (uploadSession b) l (isCommitted b) (galleryImages b).

(** [cleanupUncommittedFiles] *)
Definition cleanupUncommittedFiles (b : Blog) (w : World) : Blog * World :=
  if truthy (uploadSession b) && negb (isCommitted b) && nonempty (uploadedFiles b) then
    let existingImageUrls :=
      match galleryImages b with
      | Some rows => filter (λ u, truthy u = true) (BlogRow.imageUrl <$> rows)
      | None => []
      end in
    match cleanupUploadsCall (uploadSession b) existingImageUrls w with
    | (Resolved true, w1) => (setUploadedFiles [] b, w1)
    | (Resolved false, w1) => (b, w1)
    | (Rejected _, w1) => (b, w1)
    end
  else (b, w).

(** The effect that runs when the add dialog is found closed. *)
Definition dialogClosedEffect (b : Blog) (w : World) : Blog * World :=
  if negb (isAddDialogOpen b) && truthy (uploadSession b) && negb (isCommitted b)
     && nonempty (uploadedFiles b)
  then cleanupUncommittedFiles b w
  else (b, w).

(** The cleanup of the unmount effect. *)
Definition blogUnmount (b : Blog) (w : World) : Blog * World :=
  cleanupUncommittedFiles b w.

(** * More of the project gallery manager *)

(** ** The mirror of the pending list *)

(** The effect that writes the pending list to the mirror whenever the list
    or the project changes. *)
Definition mirrorEffect (m : Manager) (w : World) : World :=
  if nonempty (pendingImages m)
  then set_localStorage
         (insert (mirror_key (projectId m)) (JSON_stringify (pendingImages m))) w
  else set_localStorage (delete (mirror_key (projectId m))) w.

(** The effect that reads the mirror when the component mounts. *)
Definition mountEffect (m : Manager) (w : World) : Manager * World :=
  match localStorage w !! mirror_key (projectId m) with
  | Some savedPendingImages =>
      if stored_truthy savedPendingImages then
        match JSON_parse savedPendingImages with
        | Some parsedImages => (setPendingImages parsedImages m, w)
        | None => (m, set_localStorage (delete (mirror_key (projectId m))) w)
        end
      else (m, w)
  | None => (m, w)
  end.

(** ** What the parent reads through the ref *)

(** [canAddMoreImages] *)
Definition canAddMoreImages (m : Manager) : bool :=
  currentImageCount m <? MAX_GALLERY_IMAGES.

(** [hasPendingImages] *)
Definition hasPendingImages (m : Manager) : bool :=
  0 <? Z.of_nat (length (pendingImages m)).

(** [hasUnsavedChanges]; the set of saved images whose caption is being
    saved is a piece of state of its own, passed here beside the manager. *)
Definition hasUnsavedChanges (modifiedCaptions : gset nat) (m : Manager) : bool :=
  (0 <? Z.of_nat (length (pendingImages m)))
  || (0 <? Z.of_nat (size modifiedCaptions))
  || (0 <? Z.of_nat (size (modifiedOrders m))).

(** [getUnsavedChangesCount] *)
Definition getUnsavedChangesCount (modifiedCaptions : gset nat) (m : Manager) : Z :=
  Z.of_nat (length (pendingImages m)) + Z.of_nat (size modifiedCaptions)
  + Z.of_nat (size (modifiedOrders m)).

(** ** Editing a pending image *)

(** [handleUpdatePendingImageCaption].  The entry at [index] gets the new
    caption; [None] is the [TypeError] of writing a field of [undefined] when
    no entry is there. *)
Definition handleUpdatePendingImageCaption (index : nat) (caption : string) (m : Manager)
  : option Manager :=
  match pendingImages m !! index with
  | Some p =>
      Some (setPendingImages
              (<[index := Pending.mk (Pending.url p) caption (Pending.displayOrder p)]>
                 (pendingImages m)) m)
  | None => None
  end.

(** The value of a decimal digit. *)
Definition digit_of (c : ascii) : option Z :=
  let n := Ascii.nat_of_ascii c in
  if (48 <=? n)%nat && (n <=? 57)%nat then Some (Z.of_nat (n - 48)) else None.

(** The number written by the longest run of digits at the start of a
    string, after the digits already read. *)
Fixpoint parse_digits (acc : Z) (s : string) : Z :=
  match s with
  | EmptyString => acc
  | String c r =>
      match digit_of c with
      | Some d => parse_digits (10 * acc + d) r
      | None => acc
      end
  end.

(** [parseInt(s, 10)]: leading white space is skipped, a sign is read, then
    the longest run of decimal digits; [None] is [NaN], the result when no
    digit is there. *)
Definition parseInt10 (s : string) : option Z :=
  let s1 := trim_start s in
  let '(sign, s2) :=
    match s1 with
    | String c r =>
        if Ascii.eqb c "-"%char then (-1, r)
        else if Ascii.eqb c "+"%char then (1, r)
        else (1, s1)
    | EmptyString => (1, s1)
    end in
  match s2 with
  | String c _ =>
      match digit_of c with
      | Some _ => Some (sign * parse_digits 0 s2)
      | None => None
      end
  | EmptyString => None
  end.

(** [handleUpdatePendingImageOrder]: a text that is no number changes
    nothing; [None] is the [TypeError] at an index without entry. *)
Definition handleUpdatePendingImageOrder (index : nat) (order : string) (m : Manager)
  : option Manager :=
  match parseInt10 order with
  | None => Some m
  | Some orderValue =>
      match pendingImages m !! index with
      | Some p =>
          Some (setPendingImages
                  (<[index := Pending.mk (Pending.url p) (Pending.caption p) orderValue]>
                     (pendingImages m)) m)
      | None => None
      end
  end.

(** ** Reordering the saved images *)

(** [onReorderSavedItems]: [handleUpdateImageOrder] is called for every item
    that has a display order, none of the calls being awaited: the requests
    go out in item order, then their outcomes are handled. *)
Fixpoint reorderRequests (items : list ProjectGallery) (m : Manager) (w : World)
  : list (nat * Reply unit) * Manager * World :=
  match items with
  | [] => ([], m, w)
  | item :: rest =>
      match Gallery.displayOrder item with
      | Some d =>
          let '(r, m1, w1) := updateOrderRequest (Gallery.id item) d m w in
          let '(rs, m2, w2) := reorderRequests rest m1 w1 in
          ((Gallery.id item, r) :: rs, m2, w2)
      | None => reorderRequests rest m w
      end
  end.

Fixpoint reorderSettled (rs : list (nat * Reply unit)) (m : Manager) (w : World)
  : Manager * World :=
  match rs with
  | [] => (m, w)
  | (id, r) :: rest =>
      let '(m1, w1) := updateOrderSettled id r m w in reorderSettled rest m1 w1
  end.

Definition onReorderSavedItems (items : list ProjectGallery) (m : Manager) (w : World)
  : Manager * World :=
  let '(rs, m1, w1) := reorderRequests items m w in
  reorderSettled rs m1 w1.

(** * More of the blog gallery manager *)

(** The caption typed into the add dialog, a piece of state beside [Blog]. *)
Record BlogForm := mkBlogForm {
  form_blog : Blog;
  captionInput : string
}.

Section BlogUpload.

(** [addGalleryImage] of the blog hook, which is outside this development:
    the call that adds one image, with a caption or without, to the gallery
    of the post. *)
Variable addGalleryImage : string → option string → Async unit.

(** [for (const url of fileUrl) await addGalleryImage(url, captionInput || null)] *)
Fixpoint addAll (urls : list string) (caption : option string) : Async unit :=
  match urls with
  | [] => ret ()
  | url :: rest => addGalleryImage url caption ;; addAll rest caption
  end.

(** The files [handleFileUploadComplete] works on: the one URL of a string
    argument, the URLs of a non-empty array, nothing for an empty array. *)
Definition filesToAdd (fileUrl : UrlsArg) : option (list string) :=
  match fileUrl with
  | OneUrl u => Some [u]
  | ManyUrls [] => None
  | ManyUrls us => Some us
  end.

(** [handleFileUploadComplete].  An absent session identifier is the empty
    string.  The functions it calls are those of the render that created it:
    the cleanup in its [catch] sees the state of that render, not the state
    being set here; when that cleanup succeeds its [setUploadedFiles([])]
    comes last. *)
Definition handleFileUploadComplete (fileUrl : UrlsArg) (sessionId : string)
    (f : BlogForm) (w : World) : BlogForm * World :=
  let b := form_blog f in
  let session := if truthy sessionId then sessionId else uploadSession b in
  let currentSessionId := if truthy sessionId then sessionId else uploadSession b in
  let caption := if truthy (captionInput f) then Some (captionInput f) else None in
  match filesToAdd fileUrl with
  | None =>
      (mkBlogForm (mkBlog false session (uploadedFiles b) false (galleryImages b)) "", w)
  | Some files =>
      match (addAll files caption ;; commitUploadsCall currentSessionId files) w with
      | (Resolved _, w1) =>
          (mkBlogForm (mkBlog false session files true (galleryImages b)) "", w1)
      | (Rejected _, w1) =>
          let '(b1, w2) := cleanupUncommittedFiles b w1 in
          let cleaned := nonempty (uploadedFiles b) && negb (nonempty (uploadedFiles b1)) in
          (mkBlogForm
             (mkBlog (isAddDialogOpen b) session (if cleaned then [] else files) false
                     (galleryImages b))
             (captionInput f),
           w2)
      end
  end.

End BlogUpload.

(** * React's effect lifecycle

    An effect is registered with a list of dependencies.  At the first
    render React runs the effects in the order of their declaration.  After
    a later render in which a dependency of an effect has changed, React
    first runs the cleanup that the effect of the earlier render returned,
    a function that sees the state of that earlier render, and then the
    effect of the new render.  The cleanup also runs when the component
    unmounts.

    A dependency has changed when it holds another value than before.
    (React compares by identity, so that setting a state to a new array with
    the same entries counts as a change as well; no statement of this
    development is about a render of that kind.)  What a hook hands out is
    taken to change only when its content does: the functions
    ([cleanupUploads]) are the same in every render, the values
    ([uploadSessions], [projectGallery], [galleryImages]) are the same as
    long as they hold the same entries. *)

(** ** The project gallery manager *)

(** The first render.  The state is the initial one, in which
    [pendingImages] is [[]]; of the effects, the mirror effect is declared
    before the mount effect.  (The effect declared first sets
    [dynamicProjectId] to the value it starts with, and the unmount effect
    only registers its cleanup.) *)
Definition mount (m : Manager) (w : World) : Manager * World :=
  mountEffect m (mirrorEffect m w).

(** The state of the first render for the given properties and the values
    the project hook hands out. *)
Definition initialState (projectId : nat) (isNewProject : bool)
    (projectGallery : option (list ProjectGallery)) (uploadSessions : list string)
    (commitUploads cleanupUploads : bool) : Manager :=
  mkManager projectId isNewProject projectId [] projectGallery uploadSessions
            commitUploads cleanupUploads false false ∅.

(** [[cleanupUploads, uploadSessions, projectGallery, pendingImages]] *)
Definition unmountEffectDeps (m : Manager)
  : bool * list string * option (list ProjectGallery) * list PendingImage :=
  (cleanupUploads m, uploadSessions m, projectGallery m, pendingImages m).

(** [[pendingImages, projectId]] *)
Definition mirrorEffectDeps (m : Manager) : list PendingImage * nat :=
  (pendingImages m, projectId m).

(** What React does when the render with state [prev] is followed by the
    render with state [next]: the cleanup of the unmount effect of [prev],
    then the mirror effect of [next], each when its dependencies have
    changed.  [projectId] is a property that no handler changes; the two
    effects that depend on it alone do not run again. *)
Definition rerender (prev next : Manager) (w : World) : World :=
  let w1 :=
    if decide (unmountEffectDeps prev = unmountEffectDeps next) then w
    else unmountCleanup prev w in
  if decide (mirrorEffectDeps prev = mirrorEffectDeps next) then w1
  else mirrorEffect next w1.

(** ** The blog gallery manager *)

(** The state [handleFileUploadComplete] has set when it reaches its first
    [await] with the files [files]: the session, the files and
    [isCommitted] being false.  It is the state of the render during which
    the awaited calls are pending. *)
Definition uploadPending (sessionId : string) (files : list string) (b : Blog) : Blog :=
  mkBlog (isAddDialogOpen b)
         (if truthy sessionId then sessionId else uploadSession b)
         files false (galleryImages b).

(** [[uploadSession, isCommitted, uploadedFiles, cleanupUploads]] *)
Definition blogUnmountEffectDeps (b : Blog) : string * bool * list string :=
  (uploadSession b, isCommitted b, uploadedFiles b).

(** [[isAddDialogOpen, uploadSession, isCommitted, uploadedFiles, cleanupUploads]] *)
Definition dialogEffectDeps (b : Blog) : bool * string * bool * list string :=
  (isAddDialogOpen b, uploadSession b, isCommitted b, uploadedFiles b).

(** What React does when the render with state [prev] is followed by the
    render with state [next]: the cleanup of the unmount effect of [prev],
    then the dialog-close effect of [next], each when its dependencies have
    changed.  A cleanup that succeeded empties the list of uploaded files,
    which is the state returned. *)
Definition blogRerender (prev next : Blog) (w : World) : Blog * World :=
  let '(b1, w1) :=
    if decide (blogUnmountEffectDeps prev = blogUnmountEffectDeps next) then (prev, w)
    else blogUnmount prev w in
  let '(b2, w2) :=
    if decide (dialogEffectDeps prev = dialogEffectDeps next) then (next, w1)
    else dialogClosedEffect next w1 in
  let cleaned :=
    (nonempty (uploadedFiles prev) && negb (nonempty (uploadedFiles b1)))
    || (nonempty (uploadedFiles next) && negb (nonempty (uploadedFiles b2))) in
  (if cleaned then setUploadedFiles [] next else next, w2).

(** * The team members hook *)

Section TeamMembersHook.

(** [InsertTeamMember] of the schema, which is outside this development. *)
Variable InsertTeamMember : Type.

(** The requests of the five mutations. *)
Inductive TeamRequest :=
  | PostTeamMember (data : InsertTeamMember)
  | PutTeamMember (id : nat) (data : InsertTeamMember)
  | PutToggleActive (id : nat)
  | PutOrder (id : nat) (order : Z)
  | DeleteTeamMember (id : nat).

(** How a request ends: it succeeds, or it fails with the message of the
    error. *)
Inductive TeamAnswer := Succeeded | Failed (message : string).

(** What a call of the hook does, in order. *)
Inductive TeamEvent :=
  | Sent (r : TeamRequest)
  | Invalidated (queryKey : string)
  | Toasted (t : ToastMsg).

(** A mutation with its [onSuccess] and [onError]. *)
Definition mutate (r : TeamRequest) (succeeded failed : string) (a : TeamAnswer)
  : list TeamEvent :=
  Sent r ::
  match a with
  | Succeeded =>
      [Invalidated "/api/admin/team-members"; Invalidated "/api/team-members";
       Toasted (mkToast "Success" succeeded VDefault)]
  | Failed message =>
      [Toasted (mkToast "Error" (if truthy message then message else failed) VDestructive)]
  end.

Definition permissionDenied (what : string) : list TeamEvent :=
  [Toasted (mkToast "Permission denied" ("You need admin privileges to " +:+ what +:+ ".")
                    VDestructive)].

Definition createTeamMember (isAdmin : bool) (data : InsertTeamMember) (a : TeamAnswer)
  : list TeamEvent :=
  if negb isAdmin then permissionDenied "create team members"
  else mutate (PostTeamMember data) "Team member created successfully."
              "Failed to create team member. Please try again." a.

Definition updateTeamMember (isAdmin : bool) (id : nat) (data : InsertTeamMember)
    (a : TeamAnswer) : list TeamEvent :=
  if negb isAdmin then permissionDenied "update team members"
  else mutate (PutTeamMember id data) "Team member updated successfully."
              "Failed to update team member. Please try again." a.

Definition toggleActiveStatus (isAdmin : bool) (id : nat) (a : TeamAnswer)
  : list TeamEvent :=
  if negb isAdmin then permissionDenied "change team member status"
  else mutate (PutToggleActive id) "Team member status updated."
              "Failed to update status. Please try again." a.

Definition updateOrder (isAdmin : bool) (id : nat) (order : Z) (a : TeamAnswer)
  : list TeamEvent :=
  if negb isAdmin then permissionDenied "update display order"
  else mutate (PutOrder id order) "Display order updated."
              "Failed to update display order. Please try again." a.

Definition deleteTeamMember (isAdmin : bool) (id : nat) (a : TeamAnswer)
  : list TeamEvent :=
  if negb isAdmin then permissionDenied "delete team members"
  else mutate (DeleteTeamMember id) "Team member deleted successfully."
              "Failed to delete team member. Please try again." a.

(** A call of one of the five functions the hook returns. *)
Inductive TeamCall :=
  | CallCreate (data : InsertTeamMember)
  | CallUpdate (id : nat) (data : InsertTeamMember)
  | CallToggle (id : nat)
  | CallOrder (id : nat) (order : Z)
  | CallDelete (id : nat).

Definition teamCall (isAdmin : bool) (c : TeamCall) (a : TeamAnswer) : list TeamEvent :=
  match c with
  | CallCreate data => createTeamMember isAdmin data a
  | CallUpdate id data => updateTeamMember isAdmin id data a
  | CallToggle id => toggleActiveStatus isAdmin id a
  | CallOrder id order => updateOrder isAdmin id order a
  | CallDelete id => deleteTeamMember isAdmin id a
  end.

End TeamMembersHook.

Arguments PostTeamMember {InsertTeamMember} data.
Arguments PutTeamMember {InsertTeamMember} id data.
Arguments PutToggleActive {InsertTeamMember} id.
Arguments PutOrder {InsertTeamMember} id order.
Arguments DeleteTeamMember {InsertTeamMember} id.
Arguments Sent {InsertTeamMember} r.
Arguments Invalidated {InsertTeamMember} queryKey.
Arguments Toasted {InsertTeamMember} t.
Arguments CallCreate {InsertTeamMember} data.
Arguments CallUpdate {InsertTeamMember} id data.
Arguments CallToggle {InsertTeamMember} id.
Arguments CallOrder {InsertTeamMember} id order.
Arguments CallDelete {InsertTeamMember} id.
Arguments teamCall {InsertTeamMember} isAdmin c a.

(** [!!teamMemberId]: an absent identifier and the identifier 0 are falsy. *)
Definition has_id (teamMemberId : option nat) : bool :=
  match teamMemberId with
  | Some (S _) => true
  | _ => false
  end.

(** The [enabled] flags of the three queries of the hook: the public list,
    the full list, the one member. *)
Definition activeEnabled (teamMemberId : option nat) : bool := negb (has_id teamMemberId).

Definition allEnabled (teamMemberId : option nat) (isAdmin : bool) : bool :=
  negb (has_id teamMemberId) && isAdmin.

Definition memberEnabled (teamMemberId : option nat) (isAdmin : bool) : bool :=
  has_id teamMemberId && isAdmin.

(** * The request log of the server *)

(** The log line ends in an ellipsis, a code unit above 255: the strings of
    the log are sequences of UTF-16 code units. *)
Definition units (s : string) : list N :=
  Ascii.N_of_ascii <$> String.list_ascii_of_string s.

Definition ELLIPSIS : N := 8230.

(** [s.startsWith(prefix)] *)
Definition startsWith (s prefix : list N) : bool :=
  bool_decide (take (length prefix) s = prefix).

(** The line before it is cut: method, path, status, duration, and the JSON
    text of the response body when a truthy body was captured. *)
Definition fullLogLine (method path : list N) (statusCode duration : Z)
    (capturedJsonResponse : option (list N)) : list N :=
  let logLine :=
    method ++ units " " ++ path ++ units " " ++ units (pretty statusCode)
      ++ units " in " ++ units (pretty duration) ++ units "ms" in
  match capturedJsonResponse with
  | Some json => logLine ++ units " :: " ++ json
  | None => logLine
  end.

(** The line the [finish] handler logs, if any. *)
Definition requestLogLine (method path : list N) (statusCode duration : Z)
    (capturedJsonResponse : option (list N)) : option (list N) :=
  if startsWith path (units "/api") then
    let logLine := fullLogLine method path statusCode duration capturedJsonResponse in
    Some (if (80 <? length logLine)%nat then take 79 logLine ++ [ELLIPSIS] else logLine)
  else None.

(** * Definitions used in the statements *)

Definition toastAdded (allowedToAdd : Z) : ToastMsg :=
  mkToast "Maximum images reached"
          ("Added " +:+ pretty allowedToAdd +:+ " image(s). Projects can have a maximum of "
             +:+ pretty MAX_GALLERY_IMAGES +:+ " images.")
          VDefault.

Definition toastFull : ToastMsg :=
  mkToast "Maximum images reached"
          ("Projects can have a maximum of " +:+ pretty MAX_GALLERY_IMAGES
             +:+ " images. Delete some images to add more.")
          VDestructive.

(** The text a notification shows, and whether a number is written in it. *)
Definition effect_text (e : Effect) : string :=
  match e with
  | Toast t => title t +:+ " " +:+ description t
  | _ => ""
  end.

Definition mentions (k : Z) (e : Effect) : bool :=
  match String.index 0 (pretty k) (effect_text e) with
  | Some _ => true
  | None => false
  end.

(** The next display order in the words of the specification: the maximum
    over the saved and the pending display orders, plus one (1 when there is
    neither). *)
Definition max_order_plus_1 (m : Manager) : Z :=
  match (order_or_0 <$> default [] (projectGallery m))
        ++ (Pending.displayOrder <$> pendingImages m) with
  | [] => 1
  | x :: rest => Math_max x rest + 1
  end.

(** The URLs of the cached gallery, as [handleDeletePendingImage] reads them. *)
Definition cachedUrls (m : Manager) : list string :=
  default [] (fmap (M:=list) Gallery.imageUrl <$> projectGallery m).

(** The guard of [cleanupUncommittedFiles]. *)
Definition cleanup_guard (b : Blog) : Prop :=
  truthy (uploadSession b) = true ∧ isCommitted b = false ∧ uploadedFiles b ≠ [].

(** The URLs the blog manager asks to preserve. *)
Definition blogPreserveUrls (b : Blog) : list string :=
  match galleryImages b with
  | Some rows => filter (λ u, truthy u = true) (BlogRow.imageUrl <$> rows)
  | None => []
  end.

(** The dialog-close effect and the unmount cleanup of one render, run any
    number of times in any order on the state of that render.  (What React
    runs with the state of an earlier render is [blogRerender].) *)
Inductive BlogPath := DialogClosed | Unmount.

Definition blogPath (path : BlogPath) (b : Blog) (w : World) : Blog * World :=
  match path with
  | DialogClosed => dialogClosedEffect b w
  | Unmount => blogUnmount b w
  end.

Fixpoint blogPaths (paths : list BlogPath) (b : Blog) (w : World) : Blog * World :=
  match paths with
  | [] => (b, w)
  | path :: rest => let '(b1, w1) := blogPath path b w in blogPaths rest b1 w1
  end.

Definition toastOrderUpdated : Effect :=
  Toast (mkToast "Display order updated"
                 "Image display order has been updated successfully." VDefault).

(** What the two updates of a swap make of a row of the table. *)
Definition swapped_order (idA idB : nat) (a b : Z) (row : ProjectGallery) : option Z :=
  if decide (Gallery.id row = idA) then Some b
  else if decide (Gallery.id row = idB) then Some a
  else Gallery.displayOrder row.

(** The entries for which the loop makes a create request: those with a
    non-empty URL. *)
Definition creates (newPendingImages : list PendingImage) : list PendingImage :=
  filter (λ p, truthy (Pending.url p) = true) newPendingImages.

Definition body_of (owner : nat) (p : PendingImage) : InsertProjectGallery :=
  Insert.mk owner (Pending.url p) (Pending.caption p) (Pending.displayOrder p).

Definition row_of (owner : nat) (id : nat) (p : PendingImage) : ProjectGallery :=
  Gallery.mk id owner (Pending.url p) (Some (Pending.caption p))
             (Some (Pending.displayOrder p)).

Definition rows_of (owner : nat) (first_id : nat) (ps : list PendingImage)
  : list ProjectGallery :=
  imap (λ k p, row_of owner (first_id + k)%nat p) ps.

(** The world after the create requests for [ps] were all answered. *)
Definition after_creates (owner : nat) (ps : list PendingImage) (w : World) : World :=
  mkWorld (table w ++ rows_of owner (next_id w) ps)
          (next_id w + length ps)%nat
          (clock w + length ps)%nat
          (fail_at w) (poor_reply_at w) (localStorage w)
          (log w ++ (AddProjectGalleryImage ∘ body_of owner <$> ps)).

(** The world after the create request for [p] was rejected. *)
Definition after_rejected (owner : nat) (p : PendingImage) (w : World) : World :=
  tick (emit (AddProjectGalleryImage (body_of owner p)) w).

(** What a gallery request that is not rejected answers, and the world
    after it. *)
Definition gallery_reply (owner : nat) (w : World) : option (list ProjectGallery) :=
  if poor_reply_at w (clock w) then None
  else Some (filter (λ row, Gallery.projectId row = owner) (table w)).

Definition after_get (owner : nat) (w : World) : World :=
  tick (emit (ApiGetGallery owner) w).

(** The images the save routine finds to be new, given the answer to its
    gallery request. *)
Definition newOnes (m : Manager) (w : World) : list PendingImage :=
  filter (λ p, isNew (existingImageUrls (gallery_reply (dynamicProjectId m) w) m) p = true)
         (loadedPendingImages m w).

(** The bodies of the create requests in a log. *)
Definition creates_in (l : list Effect) : list InsertProjectGallery :=
  omap (λ e, match e with AddProjectGalleryImage body => Some body | _ => None end) l.

(** The part of the world that commit calls and toasts leave alone. *)
Definition same_store (w1 w2 : World) : Prop :=
  table w2 = table w1 ∧ next_id w2 = next_id w1
  ∧ localStorage w2 = localStorage w1
  ∧ creates_in (log w2) = creates_in (log w1).

(** The preserve list of the project gallery manager's unmount cleanup. *)
Definition projectPreserveUrls (m : Manager) : list string :=
  match projectGallery m with
  | Some gallery => filter (λ u, truthy u = true) (Gallery.imageUrl <$> gallery)
  | None => []
  end ++ (Pending.url <$> pendingImages m).

(** * Sample states *)

(** Eight saved images of project 7, with display orders 1 to 8. *)
Definition eight_saved : list ProjectGallery :=
  imap (λ i u, Gallery.mk (S i) 7 u None (Some (Z.of_nat (S i))))
       ["a"; "b"; "c"; "d"; "e"; "f"; "g"; "h"].

(** A manager holding them, with nothing pending and one tracked session. *)
Definition manager_with_eight : Manager :=
  mkManager 7 false 7 [] (Some eight_saved) ["s1"] true true false false ∅.

(** An empty table, an empty local storage, and a remote that answers
    every call. *)
Definition quiet_world : World :=
  mkWorld [] 1 0 (λ _, false) (λ _, false) ∅ [].

Definition five_uploads : UrlsArg := ManyUrls ["u1"; "u2"; "u3"; "u4"; "u5"].

(** One saved image with display order 1 and nothing pending. *)
Definition manager_with_one : Manager :=
  mkManager 7 false 7 [] (Some [Gallery.mk 1 7 "a" None (Some 1)]) [] true true false false ∅.

(** Two pending images, the first of which is also a saved image. *)
Definition manager_dup : Manager :=
  mkManager 7 false 7 [Pending.mk "a" "Project image 1" 2; Pending.mk "n" "Project image 2" 3]
            (Some [Gallery.mk 1 7 "a" None (Some 1)]) ["s1"] true true false false ∅.

(** Image A with display order 2 and image B with display order 5. *)
Definition two_rows : list ProjectGallery :=
  [Gallery.mk 1 7 "a" None (Some 2); Gallery.mk 2 7 "b" None (Some 5)].

Definition manager_two : Manager :=
  mkManager 7 false 7 [] (Some two_rows) [] true true false false ∅.

Definition world_two : World :=
  mkWorld two_rows 3 0 (λ _, false) (λ _, false) ∅ [].

(** Three pending images of an existing project with an empty gallery; the
    request made at tick 2, the second create request, is rejected. *)
Definition three_pending : list PendingImage :=
  [Pending.mk "x1" "Project image 1" 1; Pending.mk "x2" "Project image 2" 2;
   Pending.mk "x3" "Project image 3" 3].

Definition manager_three : Manager :=
  mkManager 7 false 7 three_pending (Some []) ["s1"] true true false false ∅.

Definition world_three : World :=
  mkWorld [] 1 0 (λ t, Nat.eqb t 2) (λ _, false)
          {[ mirror_key 7 := JSON_stringify three_pending ]} [].

(** Two pending images, the first with an empty URL (as an upload without
    [ufsUrl] leaves it); the first create request, made at tick 1, is
    rejected. *)
Definition nameless_first : list PendingImage :=
  [Pending.mk "" "Project image 1" 1; Pending.mk "x2" "Project image 2" 2].

Definition manager_nameless : Manager :=
  mkManager 7 false 7 nameless_first (Some []) ["s1"] true true false false ∅.

Definition world_nameless : World :=
  mkWorld [] 1 0 (λ t, Nat.eqb t 1) (λ _, false)
          {[ mirror_key 7 := JSON_stringify nameless_first ]} [].

(** Three pending images, mirrored, and a remote that answers every call. *)
Definition world_answering : World :=
  mkWorld [] 1 0 (λ _, false) (λ _, false)
          {[ mirror_key 7 := JSON_stringify three_pending ]} [].

(** Nothing pending in memory while the mirror holds one image (local
    storage is shared by the tabs of a browser), and one tracked session. *)
Definition manager_idle : Manager :=
  mkManager 7 false 7 [] (Some []) ["s1"] true true false false ∅.

(** The same for a project that is not created yet. *)
Definition manager_idle_draft : Manager :=
  mkManager 7 true 7 [] (Some []) ["s1"] true true false false ∅.

Definition world_mirrored : World :=
  mkWorld [] 1 0 (λ _, false) (λ _, false)
          {[ mirror_key 7 := JSON_stringify [Pending.mk "a" "Project image 1" 1] ]} [].

(** * Definitions used in the further statements *)

(** The pending images a usable mirror holds for the manager's project:
    none when the key is absent, its text empty or not parsable. *)
Definition mirrored (m : Manager) (w : World) : list PendingImage :=
  match localStorage w !! mirror_key (projectId m) with
  | Some saved => if stored_truthy saved then default [] (JSON_parse saved) else []
  | None => []
  end.

Definition toastOrderFailed : Effect :=
  Toast (mkToast "Update failed"
                 "Failed to update the image display order. Please try again."
                 VDestructive).

(** The toast that follows an order update, by whether the call was
    rejected. *)
Definition orderToast (rejected : bool) : Effect :=
  if rejected then toastOrderFailed else toastOrderUpdated.

(** The update of a row, unless the call was rejected. *)
Definition order_unless (rejected : bool) (id : nat) (d : Z) (row : ProjectGallery)
  : ProjectGallery :=
  if rejected then row else set_order id d row.

(** The identifiers and display orders [onReorderSavedItems] sends: those of
    the items that have a display order. *)
Definition orderPairs (items : list ProjectGallery) : list (nat * Z) :=
  omap (λ item, (λ d, (Gallery.id item, d)) <$> Gallery.displayOrder item) items.

(** The order updates requested in a log. *)
Definition order_updates_in (l : list Effect) : list (nat * Z) :=
  omap (λ e, match e with
             | UpdateProjectGalleryImage id d => Some (id, d)
             | _ => None
             end) l.

(** A row after the updates of a list of pairs, made one after the other. *)
Definition apply_orders (pairs : list (nat * Z)) (row : ProjectGallery) : ProjectGallery :=
  foldl (λ r pair, set_order pair.1 pair.2 r) row pairs.

(** The toast of an upload that was admitted whole. *)
Definition toastImagesAdded (n : Z) : Effect :=
  Toast (mkToast "Images added"
                 (pretty n +:+ " image" +:+ plural n +:+ " ready to be saved.")
                 VDefault).

(** A string without question mark: [before_query] leaves it alone. *)
Definition no_query (s : string) : Prop := before_query s = s.

(** The session an upload of the blog manager works with: the one passed,
    else the one of the state. *)
Definition uploadSessionFor (sessionId : string) (b : Blog) : string :=
  if truthy sessionId then sessionId else uploadSession b.

(** [captionInput || null] *)
Definition captionOrNull (f : BlogForm) : option string :=
  if truthy (captionInput f) then Some (captionInput f) else None.

(** The awaited calls of an upload of the blog manager: the images are
    added, then the files are committed. *)
Definition addAndCommit (addGalleryImage : string → option string → Async unit)
    (files : list string) (caption : option string) (session : string) : Async unit :=
  addAll addGalleryImage files caption ;; commitUploadsCall session files.

(** An [addGalleryImage] that always succeeds and one that is always
    rejected, for the sample runs. *)
Definition addGalleryImage_ok : string → option string → Async unit :=
  λ _ _, act tick.

Definition addGalleryImage_rejected : string → option string → Async unit :=
  λ _ _ w, (Rejected (RequestFailed (clock w)), tick w).

Definition fresh_blog_form : BlogForm :=
  mkBlogForm (mkBlog true "" [] false (Some [BlogRow.mk 1 "https://utfs.io/f/x.png" None]))
             "A caption".

(** The events of a call that are requests. *)
Definition requests_of {D : Type} (events : list (TeamEvent D)) : list (TeamRequest D) :=
  omap (λ e, match e with Sent r => Some r | _ => None end) events.

Definition invalidations_of {D : Type} (events : list (TeamEvent D)) : list string :=
  omap (λ e, match e with Invalidated k => Some k | _ => None end) events.

Definition toasts_of {D : Type} (events : list (TeamEvent D)) : list ToastMsg :=
  omap (λ e, match e with Toasted t => Some t | _ => None end) events.

(** The request a call stands for. *)
Definition request_of {D : Type} (c : TeamCall D) : TeamRequest D :=
  match c with
  | CallCreate data => PostTeamMember data
  | CallUpdate id data => PutTeamMember id data
  | CallToggle id => PutToggleActive id
  | CallOrder id order => PutOrder id order
  | CallDelete id => DeleteTeamMember id
  end.

(** The cleanup calls of the unmount cleanup of a render: one for every
    tracked session, all with the preserve list of that render. *)
Definition sessionCleanups (m : Manager) : list Effect :=
  if nonempty (uploadSessions m) && cleanupUploads m
  then (λ sessionId, CleanupUploads sessionId (projectPreserveUrls m)) <$> uploadSessions m
  else [].

(** The state the upload callback leaves before it hands the URLs on: one
    saved image, the session of the upload tracked, nothing pending yet. *)
Definition manager_tracking : Manager :=
  mkManager 7 false 7 [] (Some [Gallery.mk 1 7 "a" None (Some 1)]) ["s1"]
            true true false false ∅.

Definition world_tracking : World :=
  mkWorld [Gallery.mk 1 7 "a" None (Some 1)] 2 0 (λ _, false) (λ _, false) ∅ [].

(** Two images that share the display order 2, and image B with display
    order 5. *)
Definition tie_rows : list ProjectGallery :=
  [Gallery.mk 1 7 "a" None (Some 2); Gallery.mk 3 7 "c" None (Some 2);
   Gallery.mk 2 7 "b" None (Some 5)].

Definition manager_tie : Manager :=
  mkManager 7 false 7 [] (Some tie_rows) [] true true false false ∅.

Definition world_tie : World :=
  mkWorld tie_rows 4 0 (λ _, false) (λ _, false) ∅ [].

(** * Properties *)

(** ** The quota of ten images *)

Lemma newPendingImages_urls nextOrder urls :
  Pending.url <$> newPendingImages nextOrder urls = urls.
Proof.
  apply list_eq. intros i. unfold newPendingImages.
  rewrite list_lookup_fmap, list_lookup_imap. by destruct (urls !! i).
Qed.

Lemma newPendingImages_lookup nextOrder urls (i : nat) u :
  urls !! i = Some u →
  newPendingImages nextOrder urls !! i
  = Some (Pending.mk u ("Project image " +:+ pretty (i + 1)%nat) (nextOrder + Z.of_nat i)).
Proof.
  intros H. unfold newPendingImages. rewrite list_lookup_imap, H. done.
Qed.

(** C4 (as amended): when a batch of [n] URLs would take the owner over the
    maximum of ten, the first [min n (max 0 (10 - persisted - pending))] URLs
    of the batch, in batch order, are appended to the pending list; the
    notification names the number that was added, or, when there is no room
    at all, only says that the maximum is reached and raises the warning
    flag. *)
Theorem handleFileUpload_over_quota (arg : UrlsArg) (m : Manager) (w : World) :
  let urls := urls_of arg in
  let n := Z.of_nat (length urls) in
  let room := Z.max 0 (MAX_GALLERY_IMAGES - currentImageCount m) in
  let admitted := take (Z.to_nat room) urls in
  MAX_GALLERY_IMAGES < currentImageCount m + n →
  Z.of_nat (length admitted) = Z.min n room
  ∧ pendingImages (handleFileUpload arg m w).1
    = pendingImages m ++ newPendingImages (getNextOrderValue m) admitted
  ∧ Pending.url <$> pendingImages (handleFileUpload arg m w).1
    = (Pending.url <$> pendingImages m) ++ admitted
  ∧ log (handleFileUpload arg m w).2
    = log w ++ [Toast (if 0 <? room then toastAdded room else toastFull)]
  ∧ showMaxImagesWarning (handleFileUpload arg m w).1
    = (if 0 <? room then showMaxImagesWarning m else true).
Proof.
  intros urls n room admitted Hover.
  assert (Hlen : Z.of_nat (length admitted) = Z.min n room).
  { unfold admitted. rewrite length_take. subst n room. lia. }
  split; [exact Hlen|].
  unfold handleFileUpload. fold urls. fold n. fold room.
  destruct (Z.ltb_spec MAX_GALLERY_IMAGES (currentImageCount m + n)) as [_|]; [|lia].
  destruct (Z.ltb_spec 0 room) as [Hroom|Hroom]; cbn.
  - fold admitted. repeat split; try done.
    by rewrite fmap_app, newPendingImages_urls.
  - assert (admitted = []) as ->.
    { apply length_zero_iff_nil. lia. }
    cbn. rewrite !app_nil_r. done.
Qed.

Lemma handleFileUpload_over_quota_witness :
  MAX_GALLERY_IMAGES
  < currentImageCount manager_with_eight + Z.of_nat (length (urls_of five_uploads))
  ∧ Pending.url <$> pendingImages (handleFileUpload five_uploads manager_with_eight quiet_world).1
    = ["u1"; "u2"]
  ∧ log (handleFileUpload five_uploads manager_with_eight quiet_world).2
    = [Toast (toastAdded 2)].
Proof.
  assert (H : MAX_GALLERY_IMAGES
              < currentImageCount manager_with_eight
                + Z.of_nat (length (urls_of five_uploads))) by reflexivity.
  split; [exact H|].
  pose proof (handleFileUpload_over_quota five_uploads manager_with_eight quiet_world H)
    as (_ & _ & Hurls & Hlog & _).
  split; [exact Hurls | exact Hlog].
Defined.

(** C4 (as stated) fails: with eight saved images and five uploads, two are
    admitted, and the one notification reads "Added 2 image(s). Projects can
    have a maximum of 10 images."; the number of rejected uploads, three, is
    written nowhere in it. *)
Lemma quota_reports_added_not_rejected :
  let r := handleFileUpload five_uploads manager_with_eight quiet_world in
  length (pendingImages r.1) = 2%nat
  ∧ log r.2 = [Toast (mkToast "Maximum images reached"
                        "Added 2 image(s). Projects can have a maximum of 10 images."
                        VDefault)]
  ∧ ¬ ∃ e, e ∈ log r.2 ∧ mentions 3 e = true.
Proof.
  cbv zeta. split; [reflexivity|]. split; [reflexivity|].
  intros (e & He & Hm).
  assert (Hlog : log (handleFileUpload five_uploads manager_with_eight quiet_world).2
                 = [Toast (toastAdded 2)]) by reflexivity.
  rewrite Hlog in He. apply list_elem_of_singleton in He. subst e.
  vm_compute in Hm. discriminate.
Qed.

(** ** Display order of new pending images *)

Lemma getNextOrderValue_saved m g gs :
  projectGallery m = Some (g :: gs) →
  getNextOrderValue m = Math_max (order_or_0 g) (order_or_0 <$> gs) + 1.
Proof. intros H. unfold getNextOrderValue. by rewrite H. Qed.

Lemma newPendingImages_orders nextOrder urls (i : nat) p :
  newPendingImages nextOrder urls !! i = Some p →
  Pending.displayOrder p = nextOrder + Z.of_nat i.
Proof.
  unfold newPendingImages. rewrite list_lookup_imap.
  destruct (urls !! i); cbn; [|done]. by intros [= <-].
Qed.

(** C5: the code does not take the maximum over the pending images when
    saved images exist.  With one saved image of order 1, a first upload gets
    order 2, and a second upload, made while the first is still pending, gets
    order 2 again, where the maximum over saved and pending orders plus one
    is 3. *)
Theorem next_order_ignores_pending :
  let r1 := handleFileUpload (OneUrl "p") manager_with_one quiet_world in
  let r2 := handleFileUpload (OneUrl "q") r1.1 r1.2 in
  pendingImages r1.1 = [Pending.mk "p" "Project image 1" 2]
  ∧ getNextOrderValue r1.1 = 2
  ∧ max_order_plus_1 r1.1 = 3
  ∧ pendingImages r2.1 = [Pending.mk "p" "Project image 1" 2;
                          Pending.mk "q" "Project image 1" 2].
Proof. cbv zeta. repeat split. Qed.

(** ** Deleting one pending image *)

Lemma elem_of_delete_index {A} (l : list A) (i : nat) (x : A) :
  x ∈ delete i l ↔ ∃ j, j ≠ i ∧ l !! j = Some x.
Proof.
  rewrite list_elem_of_lookup. split.
  - intros [k Hk]. destruct (decide (k < i)%nat) as [Hlt|Hge].
    + exists k. rewrite list_lookup_delete_lt in Hk by done. split; [lia|done].
    + exists (S k). rewrite list_lookup_delete_ge in Hk by lia. split; [lia|done].
  - intros (j & Hne & Hj). destruct (decide (j < i)%nat) as [Hlt|Hge].
    + exists j. by rewrite list_lookup_delete_lt.
    + destruct j as [|j']; [lia|]. exists j'. rewrite list_lookup_delete_ge by lia. done.
Qed.

(** C6 (as amended): deleting the pending image at [index].  The entry at
    [index], and only it, leaves the pending list; the gallery the component
    holds, the mirror and the remote table are not touched.  When its URL is
    among the URLs of the gallery the component holds, no request is made at
    all.  When it is not, the only request (made when the URL is not empty)
    is the file cleanup for that URL, and its preserve list is the URLs of
    that gallery followed by the URLs of the pending entries at the other
    indices. *)
Theorem handleDeletePendingImage_spec (index : nat) (m : Manager) (w : World)
    (p : PendingImage) :
  pendingImages m !! index = Some p →
  let r := handleDeletePendingImage index m w in
  let preserveUrls := cachedUrls m ++ (Pending.url <$> delete index (pendingImages m)) in
  r.1 = setShowMaxImagesWarning false (setPendingImages (delete index (pendingImages m)) m)
  ∧ pendingImages r.1 = delete index (pendingImages m)
  ∧ projectGallery r.1 = projectGallery m
  ∧ localStorage r.2 = localStorage w
  ∧ table r.2 = table w
  ∧ (Pending.url p ∈ cachedUrls m → r.2 = w)
  ∧ (Pending.url p ∉ cachedUrls m →
     log r.2 = log w ++ (if truthy (Pending.url p)
                         then [FilesCleanup (Pending.url p) preserveUrls] else []))
  ∧ (∀ u, u ∈ preserveUrls ↔
          u ∈ cachedUrls m
          ∨ ∃ j q, j ≠ index ∧ pendingImages m !! j = Some q ∧ Pending.url q = u).
Proof.
  intros Hp r preserveUrls. subst r. unfold handleDeletePendingImage.
  rewrite Hp. fold (cachedUrls m).
  assert (Hset : ∀ u, u ∈ preserveUrls ↔
            u ∈ cachedUrls m
            ∨ ∃ j q, j ≠ index ∧ pendingImages m !! j = Some q ∧ Pending.url q = u).
  { intros u. unfold preserveUrls. rewrite elem_of_app, list_elem_of_fmap.
    split; (intros [?|H]; [by left|right]).
    - destruct H as (q & -> & Hq). apply elem_of_delete_index in Hq as (j & ? & ?).
      by exists j, q.
    - destruct H as (j & q & ? & ? & <-). exists q. split; [done|].
      apply elem_of_delete_index. by exists j. }
  destruct (truthy (Pending.url p)) eqn:Ht.
  - case_bool_decide as Hin; cbn.
    + repeat split; try done. apply Hset. apply Hset.
    + unfold try_catch, filesCleanupCall, remote, ret.
      destruct (fail_at w (clock w)); cbn;
        (repeat split; try done; [apply Hset | apply Hset]).
  - cbn. repeat split; try done.
    + by rewrite app_nil_r.
    + apply Hset.
    + apply Hset.
Qed.

Lemma handleDeletePendingImage_spec_witness :
  pendingImages manager_dup !! 0%nat = Some (Pending.mk "a" "Project image 1" 2)
  ∧ (handleDeletePendingImage 0 manager_dup quiet_world).2 = quiet_world
  ∧ log (handleDeletePendingImage 1 manager_dup quiet_world).2
    = [FilesCleanup "n" ["a"; "a"]].
Proof.
  split; [reflexivity|]. split.
  - refine (proj1 (proj2 (proj2 (proj2 (proj2 (proj2
      (handleDeletePendingImage_spec 0 manager_dup quiet_world _ eq_refl)))))) _).
    vm_compute. apply list_elem_of_here.
  - refine (proj1 (proj2 (proj2 (proj2 (proj2 (proj2 (proj2
      (handleDeletePendingImage_spec 1 manager_dup quiet_world _ eq_refl))))))) _).
    vm_compute. intros H. apply list_elem_of_singleton in H. discriminate.
Defined.

(** C6 (as stated) fails: the save has persisted "x1" and thrown at "x2",
    so that "x1" is in the owner's remote gallery and still pending, while
    the gallery the component holds is the empty one it had.  Deleting the
    pending "x1" then asks for the deletion of its file. *)
Lemma delete_misses_persisted_url :
  let saved := saveGalleryImages manager_three world_three in
  let r := handleDeletePendingImage 0 saved.1.2 saved.2 in
  "x1" ∈ Gallery.imageUrl
           <$> filter (λ row, Gallery.projectId row = 7%nat) (table saved.2)
  ∧ pendingImages saved.1.2 !! 0%nat = Some (Pending.mk "x1" "Project image 1" 1)
  ∧ log r.2 = log saved.2 ++ [FilesCleanup "x1" ["x2"; "x3"]].
Proof.
  cbv zeta. split; [vm_compute; apply list_elem_of_here|].
  split; vm_compute; reflexivity.
Qed.

(** ** Cleanup calls of the blog gallery manager *)

Lemma cleanupUncommittedFiles_cases (b : Blog) (w : World) :
  cleanupUncommittedFiles b w = (b, w)
  ∨ (cleanup_guard b
     ∧ log (cleanupUncommittedFiles b w).2
       = log w ++ [CleanupUploads (uploadSession b) (blogPreserveUrls b)]).
Proof.
  unfold cleanupUncommittedFiles, cleanup_guard. fold (blogPreserveUrls b).
  destruct (truthy (uploadSession b)); [|by left].
  destruct (isCommitted b); [by left|].
  destruct (uploadedFiles b) as [|f fs]; [by left|].
  right. split; [done|]. cbn.
  unfold cleanupUploadsCall, remote. destruct (fail_at w (clock w)); cbn; [done|].
  by destruct (poor_reply_at _ _).
Qed.

Lemma blogPath_cases (b : Blog) (w : World) (path : BlogPath) :
  blogPath path b w = (b, w)
  ∨ (cleanup_guard b
     ∧ log (blogPath path b w).2
       = log w ++ [CleanupUploads (uploadSession b) (blogPreserveUrls b)]).
Proof.
  destruct path; cbn; [|apply cleanupUncommittedFiles_cases].
  unfold dialogClosedEffect.
  destruct (_ && _); [apply cleanupUncommittedFiles_cases | by left].
Qed.


(** ** Moving a saved image up or down *)

Lemma filter_none {A} (P : A → Prop) `{∀ x, Decision (P x)} (l : list A) :
  (∀ x, x ∈ l → ¬ P x) → filter P l = [].
Proof.
  induction l as [|x l IH]; intros Hl; [done|].
  rewrite filter_cons_False by (apply Hl; left).
  apply IH. intros y Hy. apply Hl. by right.
Qed.

(** C10: [moveImageOrderUp] does nothing when the current order is null,
    when the gallery is absent, or when no saved image has a display order
    strictly below the current one; [moveImageOrderDown] likewise with
    strictly above.  Nothing: the manager's state and the world (the table
    with every display order, the log of calls) are what they were. *)
Theorem moveImageOrder_noop (id : nat) (currentOrder : option Z) (m : Manager) (w : World) :
  (currentOrder = None ∨ projectGallery m = None
   ∨ (∀ gallery cur img d,
        projectGallery m = Some gallery → currentOrder = Some cur →
        img ∈ gallery → Gallery.displayOrder img = Some d → cur ≤ d) →
   moveImageOrderUp id currentOrder m w = (m, w))
  ∧ (currentOrder = None ∨ projectGallery m = None
     ∨ (∀ gallery cur img d,
          projectGallery m = Some gallery → currentOrder = Some cur →
          img ∈ gallery → Gallery.displayOrder img = Some d → d ≤ cur) →
     moveImageOrderDown id currentOrder m w = (m, w)).
Proof.
  split; intros H; unfold moveImageOrderUp, moveImageOrderDown;
    destruct (projectGallery m) as [gallery|] eqn:Hg; try done;
    destruct currentOrder as [cur|]; try done;
    (destruct H as [H|[H|H]]; [done|done|]);
    rewrite filter_none; try done;
    intros img Himg; unfold below, above;
    destruct (Gallery.displayOrder img) as [d|] eqn:Hd; try done;
    specialize (H gallery cur img d eq_refl eq_refl Himg Hd);
    rewrite Is_true_true_1 || idtac; intros Hb; apply Z.ltb_lt in Hb; lia.
Qed.

Lemma moveImageOrder_noop_witness :
  moveImageOrderUp 1 (Some 2) manager_two world_two = (manager_two, world_two)
  ∧ moveImageOrderDown 2 (Some 5) manager_two world_two = (manager_two, world_two)
  ∧ moveImageOrderUp 2 None manager_two world_two = (manager_two, world_two).
Proof.
  split; [|split].
  - apply (proj1 (moveImageOrder_noop 1 (Some 2) manager_two world_two)).
    right; right. intros gallery cur img d [= <-] [= <-] Himg Hd.
    apply list_elem_of_In in Himg. cbn in Himg.
    destruct Himg as [<-|[<-|[]]]; cbn in Hd; injection Hd as <-; lia.
  - apply (proj2 (moveImageOrder_noop 2 (Some 5) manager_two world_two)).
    right; right. intros gallery cur img d [= <-] [= <-] Himg Hd.
    apply list_elem_of_In in Himg. cbn in Himg.
    destruct Himg as [<-|[<-|[]]]; cbn in Hd; injection Hd as <-; lia.
  - apply (proj1 (moveImageOrder_noop 2 None manager_two world_two)). by left.
Defined.

(** *** The head of a sorted array *)

Section SortHead.
Context {A : Type} (cmp : A → A → Z).

Lemma sort_insert_elem (x y : A) (l : list A) :
  y ∈ sort_insert cmp x l ↔ y = x ∨ y ∈ l.
Proof.
  induction l as [|z l IH]; cbn.
  - rewrite list_elem_of_singleton, elem_of_nil. tauto.
  - destruct (cmp x z <=? 0); rewrite !elem_of_cons; [tauto|].
    rewrite IH. tauto.
Qed.

Lemma Array_sort_elem (y : A) (l : list A) : y ∈ Array_sort cmp l ↔ y ∈ l.
Proof.
  induction l as [|x l IH]; [done|].
  unfold Array_sort in *. cbn. rewrite sort_insert_elem, IH, elem_of_cons. tauto.
Qed.

(** When every element before [x] is strictly after it in the order of the
    comparator and no element behind [x] is strictly before it, the stable
    sort puts [x] first. *)
Lemma Array_sort_head (l1 l2 : list A) (x : A) :
  (∀ y, y ∈ l1 → 0 < cmp y x) →
  (∀ y, y ∈ l2 → cmp x y ≤ 0) →
  head (Array_sort cmp (l1 ++ x :: l2)) = Some x.
Proof.
  intros H1 H2. induction l1 as [|y l1 IH].
  - cbn. change (foldr (sort_insert cmp) [] l2) with (Array_sort cmp l2).
    destruct (Array_sort cmp l2) as [|z s] eqn:Hs; [done|]. cbn.
    assert (z ∈ l2) as Hz by (apply Array_sort_elem; rewrite Hs; left).
    destruct (Z.leb_spec (cmp x z) 0) as [_|Hgt]; [done|].
    specialize (H2 z Hz). lia.
  - cbn. change (foldr (sort_insert cmp) [] (l1 ++ x :: l2))
      with (Array_sort cmp (l1 ++ x :: l2)).
    destruct (Array_sort cmp (l1 ++ x :: l2)) as [|z s] eqn:Hs.
    + discriminate IH. intros; apply H1; by right.
    + assert (z = x) as ->.
      { assert (Some z = Some x) as [= ->]; [|done].
        apply IH. intros; apply H1; by right. }
      cbn. destruct (Z.leb_spec (cmp y x) 0) as [Hle|_]; [|done].
      specialize (H1 y (list_elem_of_here _ _)). lia.
Qed.

End SortHead.

Lemma set_order_order (id : nat) (d : Z) (row : ProjectGallery) :
  Gallery.displayOrder (set_order id d row)
  = if decide (Gallery.id row = id) then Some d else Gallery.displayOrder row.
Proof. unfold set_order. by destruct (decide _). Qed.

Lemma set_order_id (id : nat) (d : Z) (row : ProjectGallery) :
  Gallery.id (set_order id d row) = Gallery.id row.
Proof. unfold set_order. by destruct (decide _). Qed.

(** C8 (as amended): [moveImageOrderUp] called for a saved image B, with
    B's display order [b], when A is the saved image with the greatest
    display order strictly below [b] (the first such image of the gallery,
    should several share that order) and both update calls succeed: two
    update calls go out,
    one giving B the order of A and one giving A the order [b], and in the
    remote table the rows of A then carry [b] and the rows of B carry A's
    former order, every other row being as before.  In particular, with
    A.order = 2 and B.order = 5, A ends with 5 and B with 2. *)
Theorem moveImageOrderUp_swaps (m : Manager) (w : World)
    (pre post : list ProjectGallery) (A B : ProjectGallery) (a b : Z) :
  projectGallery m = Some (pre ++ A :: post) →
  B ∈ pre ++ post →
  Gallery.displayOrder A = Some a →
  Gallery.displayOrder B = Some b →
  a < b →
  (∀ img d, img ∈ pre → Gallery.displayOrder img = Some d → d < b → d < a) →
  (∀ img d, img ∈ post → Gallery.displayOrder img = Some d → d < b → d ≤ a) →
  Gallery.id A ≠ Gallery.id B →
  fail_at w (clock w) = false →
  fail_at w (S (clock w)) = false →
  let r := moveImageOrderUp (Gallery.id B) (Gallery.displayOrder B) m w in
  log r.2 = log w ++ [UpdateProjectGalleryImage (Gallery.id B) a;
                     UpdateProjectGalleryImage (Gallery.id A) b;
                     toastOrderUpdated; toastOrderUpdated]
  ∧ table r.2 = set_order (Gallery.id A) b <$> (set_order (Gallery.id B) a <$> table w)
  ∧ (∀ (k : nat) row, table w !! k = Some row →
       Gallery.displayOrder <$> (table r.2 !! k)
       = Some (swapped_order (Gallery.id A) (Gallery.id B) a b row))
  ∧ modifiedOrders r.1 = ({[Gallery.id A]} ∪ ({[Gallery.id B]} ∪ modifiedOrders m))
                           ∖ {[Gallery.id B]} ∖ {[Gallery.id A]}.
Proof.
  intros Hg HB HA HBo Hab Hpre Hpost Hne Hf1 Hf2 r. subst r.
  unfold moveImageOrderUp. rewrite Hg, HBo.
  rewrite filter_app, filter_cons_True by (unfold below; rewrite HA; by apply Z.ltb_lt).
  match goal with
  | |- context [Array_sort ?c ?l] =>
      assert (Hhead : head (Array_sort c l) = Some A);
      [|destruct (Array_sort c l) as [|target rest]; [done|injection Hhead as ->]]
  end.
  { apply Array_sort_head.
    - intros y Hy. apply list_elem_of_filter in Hy as [Hy Hin].
      unfold below in Hy. unfold order_or_0.
      destruct (Gallery.displayOrder y) as [d|] eqn:Hd; [|done].
      apply Z.ltb_lt in Hy. specialize (Hpre y d Hin Hd Hy). rewrite HA. cbn. lia.
    - intros y Hy. apply list_elem_of_filter in Hy as [Hy Hin].
      unfold below in Hy. unfold order_or_0.
      destruct (Gallery.displayOrder y) as [d|] eqn:Hd; [|done].
      apply Z.ltb_lt in Hy. specialize (Hpost y d Hin Hd Hy). rewrite HA. cbn. lia. }
  unfold order_or_0. rewrite HA. cbn [default].
  unfold twoOrderUpdates, updateOrderRequest, updateProjectGalleryImage, remote.
  rewrite Hf1. cbn. rewrite Hf2. cbn.
  split; [by rewrite <- !app_assoc|]. split; [done|]. split; [|done].
  intros k row Hk. rewrite !list_lookup_fmap, Hk. cbn. f_equal.
  rewrite set_order_order, set_order_id, set_order_order. unfold swapped_order.
  repeat destruct (decide _); try done.
Qed.

Lemma moveImageOrderUp_swaps_witness :
  let r := moveImageOrderUp 2 (Some 5) manager_two world_two in
  projectGallery manager_two = Some ([] ++ Gallery.mk 1 7 "a" None (Some 2)
                                        :: [Gallery.mk 2 7 "b" None (Some 5)])
  ∧ 2 < 5
  ∧ table r.2 = [Gallery.mk 1 7 "a" None (Some 5); Gallery.mk 2 7 "b" None (Some 2)]
  ∧ log r.2 = [UpdateProjectGalleryImage 2 2; UpdateProjectGalleryImage 1 5;
               toastOrderUpdated; toastOrderUpdated].
Proof.
  cbv zeta. split; [reflexivity|]. split; [lia|].
  pose proof (moveImageOrderUp_swaps manager_two world_two []
                [Gallery.mk 2 7 "b" None (Some 5)]
                (Gallery.mk 1 7 "a" None (Some 2)) (Gallery.mk 2 7 "b" None (Some 5))
                2 5 eq_refl) as H.
  cbn [Gallery.id Gallery.displayOrder] in H.
  destruct H as (Hlog & Htable & _).
  - apply list_elem_of_here.
  - reflexivity.
  - reflexivity.
  - lia.
  - intros img d Himg. by apply elem_of_nil in Himg.
  - intros img d Himg Hd Hlt. apply list_elem_of_singleton in Himg. subst img.
    cbn in Hd. injection Hd as <-. lia.
  - cbn. lia.
  - reflexivity.
  - reflexivity.
  - split; [exact Htable | exact Hlog].
Defined.

(** C8 (as stated) fails: images 1 and 3 both have the greatest display
    order below that of B, which is image 2.  [moveImageOrderUp] for B swaps
    with image 1, the first of them in the gallery: image 3 keeps its
    order and does not end with the order of B. *)
Lemma moveImageOrderUp_tie :
  let r := moveImageOrderUp 2 (Some 5) manager_tie world_tie in
  (∀ row d, row ∈ tie_rows → Gallery.displayOrder row = Some d → d < 5 → d ≤ 2)
  ∧ (λ row, (Gallery.id row, Gallery.displayOrder row)) <$> table world_tie
    = [(1%nat, Some 2); (3%nat, Some 2); (2%nat, Some 5)]
  ∧ (λ row, (Gallery.id row, Gallery.displayOrder row)) <$> table r.2
    = [(1%nat, Some 5); (3%nat, Some 2); (2%nat, Some 2)].
Proof.
  cbv zeta. split; [|split; vm_compute; reflexivity].
  intros row d Hrow Hd Hlt. unfold tie_rows in Hrow.
  repeat (apply elem_of_cons in Hrow as [->|Hrow];
          [cbn in Hd; injection Hd as <-; lia|]).
  by apply elem_of_nil in Hrow.
Qed.

(** ** The persist loop of the save routine *)

Lemma World_eq (w1 w2 : World) :
  table w1 = table w2 → next_id w1 = next_id w2 → clock w1 = clock w2 →
  fail_at w1 = fail_at w2 → poor_reply_at w1 = poor_reply_at w2 →
  localStorage w1 = localStorage w2 → log w1 = log w2 → w1 = w2.
Proof. destruct w1, w2; cbn; intros; by subst. Qed.

Lemma after_creates_nil owner w : after_creates owner [] w = w.
Proof.
  apply World_eq; cbn; rewrite ?app_nil_r; try done; lia.
Qed.

Lemma after_creates_cons owner p ps w :
  after_creates owner ps (after_creates owner [p] w) = after_creates owner (p :: ps) w.
Proof.
  apply World_eq; cbn; try done; try lia.
  - rewrite <- app_assoc. f_equal. cbn. f_equal.
    apply imap_ext. intros k q _. cbn. f_equal. lia.
  - by rewrite <- app_assoc.
Qed.

Lemma addProjectGalleryImage_ok owner p w :
  fail_at w (clock w) = false →
  addProjectGalleryImage (body_of owner p) w
  = (Resolved (row_of owner (next_id w) p), after_creates owner [p] w).
Proof.
  intros Hok. unfold addProjectGalleryImage, remote. rewrite Hok. cbn.
  f_equal. apply World_eq; cbn; try done; try lia.
  unfold row_of. by rewrite Nat.add_0_r.
Qed.

Lemma addProjectGalleryImage_rejected owner p w :
  fail_at w (clock w) = true →
  addProjectGalleryImage (body_of owner p) w
  = (Rejected (RequestFailed (clock w)), after_rejected owner p w).
Proof. intros Hf. unfold addProjectGalleryImage, remote. by rewrite Hf. Qed.

Lemma persistAll_cons_truthy owner p rest w :
  truthy (Pending.url p) = true →
  persistAll owner (p :: rest) w
  = match addProjectGalleryImage (body_of owner p) w with
    | (Resolved _, w1) => persistAll owner rest w1
    | (Rejected e, w1) => (Rejected e, w1)
    end.
Proof.
  intros Ht. cbn [persistAll]. rewrite Ht.
  unfold mbind, Async_bind, bind, try_catch, throw, ret. fold (body_of owner p).
  by destruct (addProjectGalleryImage (body_of owner p) w) as [[row|e] w1].
Qed.

Lemma persistAll_cons_falsy owner p rest w :
  truthy (Pending.url p) = false →
  persistAll owner (p :: rest) w = persistAll owner rest w.
Proof. intros Ht. cbn [persistAll]. by rewrite Ht. Qed.

(** When no create request is rejected, the loop ends normally. *)
Lemma persistAll_ok owner news w :
  (∀ k, (k < length (creates news))%nat → fail_at w (clock w + k) = false) →
  persistAll owner news w = (Resolved (), after_creates owner (creates news) w).
Proof.
  revert w. induction news as [|p rest IH]; intros w Hok.
  - cbn. by rewrite after_creates_nil.
  - unfold creates in *. destruct (truthy (Pending.url p)) eqn:Ht.
    + rewrite filter_cons_True in * by done. cbn [length] in Hok.
      rewrite persistAll_cons_truthy by done.
      rewrite addProjectGalleryImage_ok
        by (specialize (Hok 0%nat); rewrite Nat.add_0_r in Hok; apply Hok; lia).
      rewrite IH; [by rewrite after_creates_cons|].
      intros k Hk. cbn. specialize (Hok (S k)).
      replace (clock w + 1 + k)%nat with (clock w + S k)%nat by lia. apply Hok. lia.
    + rewrite filter_cons_False in * by (rewrite Ht; done).
      rewrite persistAll_cons_falsy by done. by apply IH.
Qed.

(** When the create request for [p] is the first to be rejected, the loop
    stops there: the entries before [p] were created, nothing after. *)
Lemma persistAll_rejected owner l1 p l2 w :
  truthy (Pending.url p) = true →
  (∀ k, (k < length (creates l1))%nat → fail_at w (clock w + k) = false) →
  fail_at w (clock w + length (creates l1)) = true →
  persistAll owner (l1 ++ p :: l2) w
  = (Rejected (RequestFailed (clock w + length (creates l1))),
     after_rejected owner p (after_creates owner (creates l1) w)).
Proof.
  intros Hp. revert w. induction l1 as [|q l1 IH]; intros w Hok Hfail.
  - cbn [app]. rewrite persistAll_cons_truthy by done.
    cbn in Hfail. rewrite Nat.add_0_r in Hfail.
    rewrite addProjectGalleryImage_rejected by done.
    unfold creates. rewrite filter_nil, after_creates_nil. cbn. by rewrite Nat.add_0_r.
  - cbn [app]. unfold creates in *. destruct (truthy (Pending.url q)) eqn:Ht.
    + rewrite filter_cons_True in * by done. cbn [length] in *.
      rewrite persistAll_cons_truthy by done.
      rewrite addProjectGalleryImage_ok
        by (specialize (Hok 0%nat); rewrite Nat.add_0_r in Hok; apply Hok; lia).
      rewrite IH.
      * rewrite after_creates_cons. cbn.
        replace (clock w + 1 + length (filter (λ p0, truthy (Pending.url p0) = true) l1))%nat
          with (clock w + S (length (filter (λ p0, truthy (Pending.url p0) = true) l1)))%nat
          by lia.
        done.
      * intros k Hk. cbn. specialize (Hok (S k)).
        replace (clock w + 1 + k)%nat with (clock w + S k)%nat by lia. apply Hok. lia.
      * cbn. etrans; [|exact Hfail]. f_equal. lia.
    + rewrite filter_cons_False in * by (rewrite Ht; done).
      rewrite persistAll_cons_falsy by done. by apply IH.
Qed.

(** ** The save routine, stage by stage *)

Lemma apiGetGallery_ok owner w :
  fail_at w (clock w) = false →
  apiGetGallery owner w = (Resolved (gallery_reply owner w), after_get owner w).
Proof. intros Hok. unfold apiGetGallery, remote. by rewrite Hok. Qed.

Lemma apiGetGallery_rejected owner w :
  fail_at w (clock w) = true →
  apiGetGallery owner w = (Rejected (RequestFailed (clock w)), after_get owner w).
Proof. intros Hf. unfold apiGetGallery, remote. by rewrite Hf. Qed.

(** The [try] block for an existing project whose gallery request is
    answered. *)
Lemma saveTry_existing (m : Manager) (w : World) :
  isNewProject m = false →
  fail_at w (clock w) = false →
  saveTry m (loadedPendingImages m w) w
  = let owner := dynamicProjectId m in
    let existing := existingImageUrls (gallery_reply owner w) m in
    match persistAll owner (newOnes m w) (after_get owner w) with
    | (Resolved _, w1) =>
        match commitPhase m ((Pending.url <$> pendingImages m) ++ existing) w1 with
        | (Resolved _, w2) =>
            (Resolved Saved,
             set_localStorage (delete (mirror_key (projectId m)))
               (emit (toastSaved (Z.of_nat (length (newOnes m w)))) w2))
        | (Rejected e, w2) => (Rejected e, w2)
        end
    | (Rejected e, w1) => (Rejected e, w1)
    end.
Proof.
  intros Hnew Hok. unfold saveTry. rewrite Hnew.
  unfold mbind, Async_bind, bind. rewrite apiGetGallery_ok by done.
  fold (newOnes m w). cbv zeta.
  destruct (persistAll _ _ _) as [[u|e] w1]; [|done].
  destruct (commitPhase _ _ _) as [[u'|e] w2]; done.
Qed.

Lemma newOnes_nonempty (m : Manager) (w : World) :
  newOnes m w ≠ [] → nonempty (loadedPendingImages m w) = true.
Proof.
  unfold newOnes. destruct (loadedPendingImages m w); [|done].
  by rewrite filter_nil.
Qed.

(** C2 (as amended): when, in a save for an existing project, the create
    request for the new entry [p] is the first to be rejected, then every
    new entry before [p] that has a non-empty URL has been created (new
    entries with an empty URL are skipped without a request), no entry after
    [p] has been created or requested, the save throws the rejection of that
    request, and the pending list and its local-storage mirror are what they
    were. *)
Theorem save_persist_failure (m : Manager) (w : World)
    (l1 l2 : list PendingImage) (p : PendingImage) :
  isNewProject m = false →
  fail_at w (clock w) = false →
  newOnes m w = l1 ++ p :: l2 →
  truthy (Pending.url p) = true →
  (∀ k, (k < length (creates l1))%nat → fail_at w (S (clock w) + k) = false) →
  fail_at w (S (clock w) + length (creates l1)) = true →
  let owner := dynamicProjectId m in
  let r := saveGalleryImages m w in
  r.1.1 = Threw (RequestFailed (S (clock w) + length (creates l1)))
  ∧ pendingImages r.1.2 = pendingImages m
  ∧ localStorage r.2 = localStorage w
  ∧ table r.2 = table w ++ rows_of owner (next_id w) (creates l1)
  ∧ log r.2 = log w ++ [ApiGetGallery owner]
                    ++ (AddProjectGalleryImage ∘ body_of owner <$> creates l1)
                    ++ [AddProjectGalleryImage (body_of owner p); toastSaveFailed].
Proof.
  intros Hnew Hget Hnews Hp Hok Hfail owner r. subst r.
  unfold saveGalleryImages.
  rewrite newOnes_nonempty by (rewrite Hnews; by destruct l1).
  cbn [negb]. rewrite saveTry_existing by done. cbv zeta. rewrite Hnews.
  rewrite persistAll_rejected by done. cbn.
  repeat split; try done.
  rewrite <- !app_assoc. done.
Qed.

Lemma save_persist_failure_witness :
  let r := saveGalleryImages manager_three world_three in
  newOnes manager_three world_three
  = [Pending.mk "x1" "Project image 1" 1] ++ Pending.mk "x2" "Project image 2" 2
      :: [Pending.mk "x3" "Project image 3" 3]
  ∧ r.1.1 = Threw (RequestFailed 2)
  ∧ pendingImages r.1.2 = three_pending
  ∧ localStorage r.2 !! mirror_key 7 = Some (JSON_stringify three_pending)
  ∧ table r.2 = [Gallery.mk 1 7 "x1" (Some "Project image 1") (Some 1)].
Proof.
  cbv zeta.
  assert (Hnews : newOnes manager_three world_three
    = [Pending.mk "x1" "Project image 1" 1] ++ Pending.mk "x2" "Project image 2" 2
        :: [Pending.mk "x3" "Project image 3" 3]) by (vm_compute; reflexivity).
  split; [exact Hnews|].
  destruct (save_persist_failure manager_three world_three _ _ _
              eq_refl eq_refl Hnews eq_refl) as (Hthrew & Hpending & Hstore & Htable & _).
  - intros k Hk. change (k < 1)%nat in Hk. destruct k as [|k]; [reflexivity|lia].
  - reflexivity.
  - split; [exact Hthrew|]. split; [exact Hpending|]. split.
    + rewrite Hstore. reflexivity.
    + exact Htable.
Defined.

(** C2 (as stated) fails: here both pending images are new, persisting the
    second fails, and the first, which comes before it, is not persisted: it
    has an empty URL and the loop skipped it without a request. *)
Lemma save_skips_entry_before_failure :
  let r := saveGalleryImages manager_nameless world_nameless in
  newOnes manager_nameless world_nameless = nameless_first
  ∧ r.1.1 = Threw (RequestFailed 1)
  ∧ log r.2 = [ApiGetGallery 7;
               AddProjectGalleryImage (Insert.mk 7 "x2" "Project image 2" 2);
               toastSaveFailed]
  ∧ table r.2 = [].
Proof. cbv zeta. repeat split; vm_compute; reflexivity. Qed.

(** ** Create requests of a save *)

Lemma creates_in_app l1 l2 : creates_in (l1 ++ l2) = creates_in l1 ++ creates_in l2.
Proof. apply omap_app. Qed.

Lemma same_store_refl w : same_store w w.
Proof. by repeat split. Qed.

Lemma same_store_trans w1 w2 w3 : same_store w1 w2 → same_store w2 w3 → same_store w1 w3.
Proof. intros (?&?&?&?) (?&?&?&?). repeat split; congruence. Qed.

Lemma commitAll_same_store sessions fileUrls w :
  same_store w (commitAll sessions fileUrls w).2.
Proof.
  revert w. induction sessions as [|sessionId rest IH]; intros w.
  - apply same_store_refl.
  - cbn [commitAll]. unfold mbind, Async_bind, bind, commitUploadsCall, remote.
    destruct (fail_at w (clock w)); cbn.
    + repeat split; cbn; try done. rewrite creates_in_app. cbn. by rewrite app_nil_r.
    + eapply same_store_trans; [|apply IH].
      repeat split; cbn; try done. rewrite creates_in_app. cbn. by rewrite app_nil_r.
Qed.

Lemma commitPhase_same_store m fileUrls w :
  same_store w (commitPhase m fileUrls w).2.
Proof.
  unfold commitPhase. destruct (_ && _); [apply commitAll_same_store|].
  apply same_store_refl.
Qed.

(** For a project that is not created yet, a save makes no create request. *)
Lemma save_new_project m w :
  isNewProject m = true →
  table (saveGalleryImages m w).2 = table w
  ∧ creates_in (log (saveGalleryImages m w).2) = creates_in (log w).
Proof.
  intros Hnew. unfold saveGalleryImages.
  destruct (nonempty (loadedPendingImages m w)); [|done]. cbn [negb].
  unfold saveTry. rewrite Hnew. unfold mbind, Async_bind, bind, act, ret.
  pose proof (commitPhase_same_store m (Pending.url <$> loadedPendingImages m w) w)
    as (Ht & _ & _ & Hc).
  destruct (commitPhase _ _ _) as [[u|e] w1]; cbn in *.
  - split; [done|]. rewrite creates_in_app, Hc. cbn. by rewrite app_nil_r.
  - split; [done|]. rewrite creates_in_app, Hc. cbn. by rewrite app_nil_r.
Qed.

(** A loop that ends normally has created every new entry with a URL. *)
Lemma persistAll_resolved owner news w u w' :
  persistAll owner news w = (Resolved u, w') →
  w' = after_creates owner (creates news) w.
Proof.
  revert w. induction news as [|p rest IH]; intros w H.
  - cbn in H. injection H as _ <-. by rewrite after_creates_nil.
  - unfold creates in *. destruct (truthy (Pending.url p)) eqn:Ht.
    + rewrite filter_cons_True by done.
      rewrite persistAll_cons_truthy in H by done.
      destruct (fail_at w (clock w)) eqn:Hf.
      * by rewrite addProjectGalleryImage_rejected in H.
      * rewrite addProjectGalleryImage_ok in H by done.
        apply IH in H. by rewrite after_creates_cons in H.
    + rewrite filter_cons_False by (rewrite Ht; done).
      rewrite persistAll_cons_falsy in H by done. by apply IH.
Qed.

(** Whatever its end, the loop requests only entries of its list, and its
    table grows only by rows. *)
Lemma persistAll_requests owner news w :
  ∃ ps, (∀ q, q ∈ ps → q ∈ creates news)
        ∧ creates_in (log (persistAll owner news w).2)
          = creates_in (log w) ++ (body_of owner <$> ps)
        ∧ localStorage (persistAll owner news w).2 = localStorage w.
Proof.
  revert w. induction news as [|p rest IH]; intros w.
  - exists []. cbn. by rewrite app_nil_r.
  - unfold creates in *. destruct (truthy (Pending.url p)) eqn:Ht.
    + rewrite filter_cons_True by done.
      rewrite persistAll_cons_truthy by done.
      destruct (fail_at w (clock w)) eqn:Hf.
      * rewrite addProjectGalleryImage_rejected by done.
        exists [p]. cbn. split; [|by rewrite creates_in_app].
        intros q Hq. apply list_elem_of_singleton in Hq as ->. left.
      * rewrite addProjectGalleryImage_ok by done.
        destruct (IH (after_creates owner [p] w)) as (ps & Hps & Hlog & Hst).
        exists (p :: ps). split; [|split].
        -- intros q Hq. apply elem_of_cons in Hq as [->|Hq]; [left|right; by apply Hps].
        -- rewrite Hlog. cbn. rewrite creates_in_app. cbn. by rewrite <- app_assoc.
        -- by rewrite Hst.
    + rewrite filter_cons_False by (rewrite Ht; done).
      rewrite persistAll_cons_falsy by done. apply IH.
Qed.

(** The filter of the save routine keeps an image exactly when its
    normalized URL is the normalized URL of no existing image. *)
Lemma isNew_spec existing p :
  isNew existing p = true ↔
  ∀ e, e ∈ existing → normalize e ≠ normalize (Pending.url p).
Proof.
  unfold isNew. rewrite negb_true_iff. split.
  - intros H e He Heq.
    assert (existsb (λ existingUrl, (normalize existingUrl =? normalize (Pending.url p))%string)
                    existing = true) as Hex; [|congruence].
    apply existsb_exists. exists e. split; [by apply list_elem_of_In|].
    by apply String.eqb_eq.
  - intros H. apply not_true_is_false. intros Hex.
    apply existsb_exists in Hex as (e & He & Heq).
    apply String.eqb_eq in Heq. apply list_elem_of_In in He. by apply (H e).
Qed.

Lemma loaded_depends (m m2 : Manager) (w : World) :
  projectId m2 = projectId m → pendingImages m2 = pendingImages m →
  loadedPendingImages m2 w = loadedPendingImages m w.
Proof. intros H1 H2. unfold loadedPendingImages. by rewrite H1, H2. Qed.

Lemma loaded_no_mirror (m : Manager) (w : World) :
  localStorage w !! mirror_key (projectId m) = None →
  loadedPendingImages m w = pendingImages m.
Proof. intros H. unfold loadedPendingImages. by rewrite H. Qed.

Lemma pending_in_loaded (m : Manager) (w : World) (p : PendingImage) :
  p ∈ pendingImages m → p ∈ loadedPendingImages m w.
Proof.
  intros Hp. unfold loadedPendingImages.
  destruct (localStorage w !! _) as [saved|]; [|done].
  destruct (stored_truthy saved); [|done].
  destruct (JSON_parse saved) as [parsed|]; [|done].
  destruct (pendingImages m) as [|p0 ps] eqn:Hpend; [by apply elem_of_nil in Hp|].
  destruct parsed as [|q qs]; [done|].
  cbn [nonempty andb negb].
  destruct (nonempty _); [|done]. apply elem_of_app. by left.
Qed.

(** A save for an existing project that returns normally went through all
    its stages. *)
Lemma save_saved_inv (m : Manager) (w : World) :
  isNewProject m = false →
  nonempty (loadedPendingImages m w) = true →
  (saveGalleryImages m w).1.1 = Returned →
  fail_at w (clock w) = false
  ∧ pendingImages (saveGalleryImages m w).1.2 = []
  ∧ projectId (saveGalleryImages m w).1.2 = projectId m
  ∧ isNewProject (saveGalleryImages m w).1.2 = false
  ∧ ∃ w2,
      same_store (after_creates (dynamicProjectId m) (creates (newOnes m w))
                                (after_get (dynamicProjectId m) w)) w2
      ∧ (saveGalleryImages m w).2
        = set_localStorage (delete (mirror_key (projectId m)))
            (emit (toastSaved (Z.of_nat (length (newOnes m w)))) w2).
Proof.
  intros Hnew Hne. unfold saveGalleryImages. rewrite Hne. cbn [negb].
  destruct (fail_at w (clock w)) eqn:Hget.
  { unfold saveTry. rewrite Hnew. unfold mbind, Async_bind, bind.
    by rewrite apiGetGallery_rejected. }
  rewrite saveTry_existing by done. cbv zeta.
  destruct (persistAll _ _ _) as [[u|e] w1] eqn:Hpersist; [|done].
  apply persistAll_resolved in Hpersist as ->.
  match goal with |- context [commitPhase m ?urls ?w1] =>
    pose proof (commitPhase_same_store m urls w1) as Hsame;
    destruct (commitPhase m urls w1) as [[u'|e] w2] end; [|done].
  cbn. intros _. repeat split; try done. by exists w2.
Qed.

(** Rows of the table that a successful save leaves in place or adds. *)
Lemma rows_of_elem owner first_id ps p :
  p ∈ ps → ∃ id, row_of owner id p ∈ rows_of owner first_id ps.
Proof.
  intros Hp. apply list_elem_of_lookup in Hp as [k Hk].
  exists (first_id + k)%nat. apply list_elem_of_lookup. exists k.
  unfold rows_of. by rewrite list_lookup_imap, Hk.
Qed.

(** When nothing of a list needs a request, the loop changes nothing. *)
Lemma persistAll_nothing owner news w :
  creates news = [] → persistAll owner news w = (Resolved (), w).
Proof.
  intros H. rewrite persistAll_ok by (rewrite H; cbn; lia).
  by rewrite H, after_creates_nil.
Qed.

(** A save whose new images all lack a URL makes no create request. *)
Lemma save_nothing_to_create (m : Manager) (w : World) :
  isNewProject m = false →
  (fail_at w (clock w) = false → creates (newOnes m w) = []) →
  table (saveGalleryImages m w).2 = table w
  ∧ creates_in (log (saveGalleryImages m w).2) = creates_in (log w).
Proof.
  intros Hnew Hnone. unfold saveGalleryImages.
  destruct (nonempty (loadedPendingImages m w)); [|done]. cbn [negb].
  destruct (fail_at w (clock w)) eqn:Hget.
  { unfold saveTry. rewrite Hnew. unfold mbind, Async_bind, bind.
    rewrite apiGetGallery_rejected by done. cbn. split; [done|].
    rewrite !creates_in_app. cbn. by rewrite !app_nil_r. }
  rewrite saveTry_existing by done. cbv zeta.
  rewrite persistAll_nothing by auto.
  match goal with |- context [commitPhase m ?urls ?w1] =>
    pose proof (commitPhase_same_store m urls w1) as (Ht & _ & _ & Hc);
    destruct (commitPhase m urls w1) as [[u'|e] w2] end; cbn in *.
  - split; [done|]. rewrite creates_in_app, Hc, creates_in_app. cbn.
    by rewrite !app_nil_r.
  - split; [done|]. rewrite creates_in_app, Hc, creates_in_app. cbn.
    by rewrite !app_nil_r.
Qed.

Lemma existing_of_table (m : Manager) (w : World) :
  poor_reply_at w (clock w) = false →
  existingImageUrls (gallery_reply (dynamicProjectId m) w) m
  = Gallery.imageUrl <$> filter (λ row, Gallery.projectId row = dynamicProjectId m) (table w).
Proof. intros H. unfold gallery_reply. by rewrite H. Qed.

Lemma save_keeps_identity (m : Manager) (w : World) :
  projectId (saveGalleryImages m w).1.2 = projectId m
  ∧ isNewProject (saveGalleryImages m w).1.2 = isNewProject m.
Proof.
  unfold saveGalleryImages. destruct (negb _); [done|].
  by destruct (saveTry _ _ _) as [[[]|] ?].
Qed.

Lemma save_nothing_loaded (m : Manager) (w : World) :
  nonempty (loadedPendingImages m w) = false → saveGalleryImages m w = (Returned, m, w).
Proof. intros H. unfold saveGalleryImages. by rewrite H. Qed.

(** The create requests of a save for an existing project are for images
    that its filter found new. *)
Lemma save_creates_in (m : Manager) (w : World) :
  isNewProject m = false →
  ∃ ps, (∀ q, q ∈ ps → q ∈ newOnes m w)
        ∧ creates_in (log (saveGalleryImages m w).2)
          = creates_in (log w) ++ (body_of (dynamicProjectId m) <$> ps).
Proof.
  intros Hnew. unfold saveGalleryImages.
  destruct (nonempty (loadedPendingImages m w)); cbn [negb];
    [|exists []; split; [intros q Hq; by apply elem_of_nil in Hq|cbn; by rewrite app_nil_r]].
  destruct (fail_at w (clock w)) eqn:Hget.
  { unfold saveTry. rewrite Hnew. unfold mbind, Async_bind, bind.
    rewrite apiGetGallery_rejected by done. exists []. cbn.
    split; [intros q Hq; by apply elem_of_nil in Hq|].
    rewrite !creates_in_app. cbn. by rewrite !app_nil_r. }
  rewrite saveTry_existing by done. cbv zeta.
  destruct (persistAll_requests (dynamicProjectId m) (newOnes m w)
              (after_get (dynamicProjectId m) w)) as (ps & Hps & Hlog & _).
  exists ps. split.
  { intros q Hq. apply Hps in Hq. unfold creates in Hq.
    by apply list_elem_of_filter in Hq as [_ Hq]. }
  cbn in Hlog. rewrite creates_in_app in Hlog. cbn in Hlog. rewrite app_nil_r in Hlog.
  destruct (persistAll _ _ _) as [[u|e] w1]; cbn in Hlog |- *.
  - match goal with |- context [commitPhase m ?urls ?w1] =>
      pose proof (commitPhase_same_store m urls w1) as (_ & _ & _ & Hc);
      destruct (commitPhase m urls w1) as [[u'|e] w2] end; cbn in *;
      rewrite creates_in_app, Hc, Hlog; cbn; by rewrite app_nil_r.
  - rewrite creates_in_app, Hlog. cbn. by rewrite app_nil_r.
Qed.

(** C3: two saves in a row.  When a save returns normally, the next save
    (from the state the first one left, whatever the gallery cache has become
    in between, with no new upload) makes no create request and leaves the
    table as it is.  The same holds when the save is run again from the
    earlier state, with the pending list that was just saved, provided both
    gallery requests are answered with the gallery: every pending image is
    then filtered out by its normalized URL.  In any save answered with the
    gallery, a create request is made only for an image whose normalized URL
    is the normalized URL of no row the owner already has. *)
Theorem save_twice_creates_nothing (m : Manager) (w : World) :
  (saveGalleryImages m w).1.1 = Returned →
  let m1 := (saveGalleryImages m w).1.2 in
  let w1 := (saveGalleryImages m w).2 in
  (∀ m2, projectId m2 = projectId m1 → isNewProject m2 = isNewProject m1 →
         pendingImages m2 = pendingImages m1 →
         table (saveGalleryImages m2 w1).2 = table w1
         ∧ creates_in (log (saveGalleryImages m2 w1).2) = creates_in (log w1))
  ∧ (poor_reply_at w (clock w) = false → poor_reply_at w1 (clock w1) = false →
     table (saveGalleryImages m w1).2 = table w1
     ∧ creates_in (log (saveGalleryImages m w1).2) = creates_in (log w1))
  ∧ (poor_reply_at w (clock w) = false →
     ∀ body, body ∈ creates_in (log w1) →
       body ∈ creates_in (log w)
       ∨ ∀ row, row ∈ table w → Gallery.projectId row = dynamicProjectId m →
                normalize (Gallery.imageUrl row) ≠ normalize (Insert.imageUrl body)).
Proof.
  intros Hret m1 w1.
  destruct (save_keeps_identity m w) as [Hid Hnew1]. fold m1 in Hid, Hnew1.
  split; [|split].
  - (* the next save *)
    intros m2 Hid2 Hnew2 Hpend2.
    destruct (isNewProject m) eqn:Hnew.
    { apply save_new_project. congruence. }
    destruct (nonempty (loadedPendingImages m w)) eqn:Hne.
    + destruct (save_saved_inv m w Hnew Hne Hret) as (_ & Hp1 & _ & _ & w2 & _ & Hw1).
      fold m1 in Hp1. fold w1 in Hw1.
      rewrite save_nothing_loaded; [done|].
      rewrite loaded_no_mirror; [by rewrite Hpend2, Hp1|].
      rewrite Hid2, Hid, Hw1. cbn. apply lookup_delete_eq.
    + pose proof (save_nothing_loaded m w Hne) as Hs.
      subst m1 w1. rewrite Hs in *. cbn in *.
      rewrite save_nothing_loaded; [done|].
      by rewrite (loaded_depends m m2 w).
  - (* the same save again *)
    intros Hpoor Hpoor1.
    destruct (isNewProject m) eqn:Hnew; [by apply save_new_project|].
    destruct (nonempty (loadedPendingImages m w)) eqn:Hne.
    2:{ pose proof (save_nothing_loaded m w Hne) as Hs.
        subst w1. rewrite Hs. cbn. by rewrite Hs. }
    destruct (save_saved_inv m w Hnew Hne Hret) as (_ & _ & _ & _ & w2 & Hsame & Hw1).
    fold w1 in Hw1. destruct Hsame as (Htable & _ & _ & _). cbn in Htable.
    assert (Ht1 : table w1 = table w ++ rows_of (dynamicProjectId m) (next_id w)
                                          (creates (newOnes m w)))
      by (rewrite Hw1; cbn; done).
    apply save_nothing_to_create; [done|]. intros _.
    apply filter_none. intros p Hp Htruthy.
    unfold newOnes in Hp. apply list_elem_of_filter in Hp as [Hnew2 Hp].
    rewrite existing_of_table in Hnew2 by done.
    rewrite loaded_no_mirror in Hp by (rewrite Hw1; cbn; apply lookup_delete_eq).
    rewrite isNew_spec in Hnew2.
    destruct (isNew (existingImageUrls (gallery_reply (dynamicProjectId m) w) m) p)
      eqn:Hnew0.
    + (* it was new: the first save created its row *)
      assert (p ∈ creates (newOnes m w)) as Hc.
      { unfold creates, newOnes. apply list_elem_of_filter. split; [done|].
        apply list_elem_of_filter. split; [done|]. by apply pending_in_loaded. }
      apply (rows_of_elem (dynamicProjectId m) (next_id w)) in Hc as [id Hrow].
      apply (Hnew2 (Pending.url p)); [|done].
      apply list_elem_of_fmap. exists (row_of (dynamicProjectId m) id p).
      split; [done|]. apply list_elem_of_filter. split; [done|].
      rewrite Ht1. apply elem_of_app. by right.
    + (* it was not new: the row it matched is still there *)
      rewrite existing_of_table in Hnew0 by done.
      unfold isNew in Hnew0. apply negb_false_iff, existsb_exists in Hnew0
        as (e & He & Heq).
      apply String.eqb_eq in Heq. apply list_elem_of_In in He.
      apply (Hnew2 e); [|done].
      apply list_elem_of_fmap in He as (row & -> & Hrow).
      apply list_elem_of_filter in Hrow as [Hown Hrow].
      apply list_elem_of_fmap. exists row. split; [done|].
      apply list_elem_of_filter. split; [done|].
      rewrite Ht1. apply elem_of_app. by left.
  - (* only new images are created *)
    intros Hpoor body Hbody. subst w1.
    destruct (isNewProject m) eqn:Hnew.
    { left. by rewrite <- (proj2 (save_new_project m w Hnew)). }
    destruct (save_creates_in m w Hnew) as (ps & Hps & Hlog).
    rewrite Hlog in Hbody. apply elem_of_app in Hbody as [Hold|Hbody]; [by left|].
    right. intros row Hrow Hown.
    apply list_elem_of_fmap in Hbody as (q & -> & Hq). apply Hps in Hq.
    unfold newOnes in Hq. apply list_elem_of_filter in Hq as [Hq _].
    rewrite existing_of_table in Hq by done. rewrite isNew_spec in Hq.
    cbn. apply Hq. apply list_elem_of_fmap. exists row. split; [done|].
    by apply list_elem_of_filter.
Qed.

Lemma save_twice_creates_nothing_witness :
  let r1 := saveGalleryImages manager_three world_answering in
  r1.1.1 = Returned
  ∧ Insert.imageUrl <$> creates_in (log r1.2) = ["x1"; "x2"; "x3"]
  ∧ creates_in (log (saveGalleryImages r1.1.2 r1.2).2) = creates_in (log r1.2)
  ∧ creates_in (log (saveGalleryImages manager_three r1.2).2) = creates_in (log r1.2).
Proof.
  cbv zeta.
  assert (H : (saveGalleryImages manager_three world_answering).1.1 = Returned)
    by (vm_compute; reflexivity).
  split; [exact H|]. split; [vm_compute; reflexivity|].
  destruct (save_twice_creates_nothing manager_three world_answering H) as (Hnext & Hagain & _).
  split.
  - exact (proj2 (Hnext _ eq_refl eq_refl eq_refl)).
  - exact (proj2 (Hagain eq_refl eq_refl)).
Defined.

(** ** The commit after a save *)

(** C7: the commit of the save for an existing project lists the URLs of
    the pending images in memory, not of the images it has just saved.  When
    the pending list was adopted from the mirror, the image "a" is persisted
    and the session is then committed with an empty list, which holds
    neither the pending URL nor the URL just persisted; the branch for a
    project not created yet lists the adopted images. *)
Theorem save_commit_omits_adopted :
  let r := saveGalleryImages manager_idle world_mirrored in
  loadedPendingImages manager_idle world_mirrored = [Pending.mk "a" "Project image 1" 1]
  ∧ r.1.1 = Returned
  ∧ table r.2 = [Gallery.mk 1 7 "a" (Some "Project image 1") (Some 1)]
  ∧ log r.2 = [ApiGetGallery 7;
               AddProjectGalleryImage (Insert.mk 7 "a" "Project image 1" 1);
               CommitUploads "s1" [];
               toastSaved 1]
  ∧ log (saveGalleryImages manager_idle_draft world_mirrored).2
    = [CommitUploads "s1" ["a"]; toastDeferred 1].
Proof. cbv zeta. repeat split; vm_compute; reflexivity. Qed.

(** ** Preserve lists of the cleanup calls *)

Lemma fire_cleanup sessionId preserveUrls w :
  fire (cleanupUploadsCall sessionId preserveUrls) w
  = tick (emit (CleanupUploads sessionId preserveUrls) w).
Proof.
  unfold fire, cleanupUploadsCall, remote. by destruct (fail_at w (clock w)).
Qed.

Lemma cleanup_all_log preserveUrls sessions w :
  log (foldl (λ w sessionId, fire (cleanupUploadsCall sessionId preserveUrls) w) w sessions)
  = log w ++ ((λ sessionId, CleanupUploads sessionId preserveUrls) <$> sessions).
Proof.
  revert w. induction sessions as [|sessionId rest IH]; intros w; cbn.
  - by rewrite app_nil_r.
  - rewrite IH, fire_cleanup. cbn. by rewrite <- app_assoc.
Qed.

Lemma truthy_nonempty (u : string) : truthy u = true ↔ u ≠ "".
Proof. by destruct u. Qed.

Lemma unmountCleanup_log (m : Manager) (w : World) :
  log (unmountCleanup m w) = log w ++ sessionCleanups m.
Proof.
  unfold unmountCleanup, sessionCleanups. destruct (_ && _); [|by rewrite app_nil_r].
  fold (projectPreserveUrls m). apply cleanup_all_log.
Qed.

(** C1: the cleanup of the unmount effect runs at a re-render as well, with
    the lists of the render before.  The upload callback has tracked the
    session "s1", and [handleFileUpload] then makes three images pending.
    The pending list having changed, React runs the cleanup of the render
    before: its call for "s1" preserves the URL of the saved image and none
    of the three URLs that are pending when it is made. *)
Theorem stale_cleanup_omits_pending :
  let r := handleFileUpload (ManyUrls ["p1"; "p2"; "p3"]) manager_tracking world_tracking in
  Pending.url <$> pendingImages r.1 = ["p1"; "p2"; "p3"]
  ∧ log (rerender manager_tracking r.1 r.2)
    = [toastImagesAdded 3; CleanupUploads "s1" ["a"]]
  ∧ ¬ ∀ sessionId preserveUrls u,
        CleanupUploads sessionId preserveUrls ∈ log (rerender manager_tracking r.1 r.2) →
        u ∈ Pending.url <$> pendingImages r.1 →
        u ∈ preserveUrls.
Proof.
  cbv zeta.
  assert (Hp : Pending.url
                 <$> pendingImages (handleFileUpload (ManyUrls ["p1"; "p2"; "p3"])
                                      manager_tracking world_tracking).1
               = ["p1"; "p2"; "p3"]) by (vm_compute; reflexivity).
  assert (Hlog : log (rerender manager_tracking
                        (handleFileUpload (ManyUrls ["p1"; "p2"; "p3"])
                           manager_tracking world_tracking).1
                        (handleFileUpload (ManyUrls ["p1"; "p2"; "p3"])
                           manager_tracking world_tracking).2)
                 = [toastImagesAdded 3; CleanupUploads "s1" ["a"]])
    by (vm_compute; reflexivity).
  split; [exact Hp|]. split; [exact Hlog|].
  rewrite Hlog, Hp. intros H.
  assert (Hin : "p1" ∈ ["a"]).
  { apply (H "s1"); [apply list_elem_of_further, list_elem_of_here | apply list_elem_of_here]. }
  apply list_elem_of_singleton in Hin. discriminate Hin.
Qed.

(** * Further properties of the project gallery manager *)

(** ** The mirror *)

(** X1: the mirror does not outlive the component.  At the first render the
    pending list is empty and the mirror effect, which is declared before the
    mount effect, runs first: it removes the key of the project.  The mount
    effect then finds nothing, whatever local storage held: the state stays
    the initial one, no request is made, only that key has gone, and a save
    made in this state has nothing to work with. *)
Theorem mount_discards_mirror (projectId : nat) (isNewProject : bool)
    (projectGallery : option (list ProjectGallery)) (uploadSessions : list string)
    (commitUploads cleanupUploads : bool) (w : World) :
  let m := initialState projectId isNewProject projectGallery uploadSessions
             commitUploads cleanupUploads in
  let r := mount m w in
  r.1 = m
  ∧ localStorage r.2 = delete (mirror_key projectId) (localStorage w)
  ∧ table r.2 = table w
  ∧ log r.2 = log w
  ∧ mirrored r.1 r.2 = []
  ∧ loadedPendingImages r.1 r.2 = [].
Proof.
  cbv zeta. unfold mount, mountEffect, mirrorEffect, mirrored, loadedPendingImages. cbn.
  rewrite lookup_delete_eq. cbn. by rewrite lookup_delete_eq.
Qed.

(** X2: a mirror whose text is not parsable never reaches the pending list.
    The mount effect removes the key, and only that key, and keeps the
    state; the save routine works with the pending list in memory alone and
    leaves the key where it is. *)
Theorem corrupt_mirror_ignored (m : Manager) (w : World) (raw : string) :
  localStorage w !! mirror_key (projectId m) = Some (StoredCorrupt raw) →
  (mountEffect m w).1 = m
  ∧ localStorage (mountEffect m w).2
    = (if truthy raw then delete (mirror_key (projectId m)) (localStorage w)
       else localStorage w)
  ∧ table (mountEffect m w).2 = table w
  ∧ log (mountEffect m w).2 = log w
  ∧ loadedPendingImages m w = pendingImages m.
Proof.
  intros H. unfold mountEffect, loadedPendingImages. rewrite H. cbn.
  by destruct (truthy raw).
Qed.

Lemma corrupt_mirror_ignored_witness :
  let w := set_localStorage (insert (mirror_key 7) (StoredCorrupt "[{")) quiet_world in
  localStorage w !! mirror_key 7 = Some (StoredCorrupt "[{")
  ∧ (mountEffect manager_three w).1 = manager_three
  ∧ localStorage (mountEffect manager_three w).2 !! mirror_key 7 = None.
Proof.
  cbv zeta.
  assert (H : localStorage (set_localStorage (insert (mirror_key 7) (StoredCorrupt "[{"))
                              quiet_world) !! mirror_key (projectId manager_three)
              = Some (StoredCorrupt "[{")) by reflexivity.
  split; [exact H|].
  destruct (corrupt_mirror_ignored manager_three _ _ H) as (Hm & Hs & _).
  split; [exact Hm|]. rewrite Hs. cbn. apply lookup_delete_eq.
Defined.

(** ** Uploads *)

(** X3: an upload makes no remote call, and it leaves the mirror in step
    with the pending list: unless there is no room at all (then neither
    changes), the mirror key holds exactly the new pending list, and no other
    key is touched. *)
Theorem handleFileUpload_mirror (arg : UrlsArg) (m : Manager) (w : World) :
  let r := handleFileUpload arg m w in
  let n := Z.of_nat (length (urls_of arg)) in
  let full := (MAX_GALLERY_IMAGES <? currentImageCount m + n)
              && (MAX_GALLERY_IMAGES - currentImageCount m <=? 0) in
  localStorage r.2
  = (if full then localStorage w
     else <[mirror_key (projectId m) := JSON_stringify (pendingImages r.1)]> (localStorage w))
  ∧ (if full then pendingImages r.1 = pendingImages m else True)
  ∧ table r.2 = table w ∧ clock r.2 = clock w
  ∧ projectGallery r.1 = projectGallery m ∧ projectId r.1 = projectId m.
Proof.
  cbv zeta. unfold handleFileUpload.
  destruct (Z.ltb_spec MAX_GALLERY_IMAGES
              (currentImageCount m + Z.of_nat (length (urls_of arg)))) as [Hover|Hfit];
    cbn [andb].
  - destruct (Z.leb_spec (MAX_GALLERY_IMAGES - currentImageCount m) 0) as [Hno|Hroom].
    + destruct (Z.ltb_spec 0 (Z.max 0 (MAX_GALLERY_IMAGES - currentImageCount m)));
        [lia|]. by cbn.
    + destruct (Z.ltb_spec 0 (Z.max 0 (MAX_GALLERY_IMAGES - currentImageCount m)));
        [|lia]. by cbn.
  - by cbn.
Qed.

(** X4: the quota.  After an upload of [n] URLs the count of saved and
    pending images is [min (count + n) (max count 10)]: it never decreases,
    and once it is at most ten it stays at most ten. *)
Theorem handleFileUpload_count (arg : UrlsArg) (m : Manager) (w : World) :
  let n := Z.of_nat (length (urls_of arg)) in
  let count' := currentImageCount (handleFileUpload arg m w).1 in
  count' = Z.min (currentImageCount m + n) (Z.max (currentImageCount m) MAX_GALLERY_IMAGES)
  ∧ currentImageCount m ≤ count'
  ∧ (currentImageCount m ≤ MAX_GALLERY_IMAGES → count' ≤ MAX_GALLERY_IMAGES).
Proof.
  cbv zeta.
  assert (H : currentImageCount (handleFileUpload arg m w).1
              = Z.min (currentImageCount m + Z.of_nat (length (urls_of arg)))
                      (Z.max (currentImageCount m) MAX_GALLERY_IMAGES)).
  { unfold handleFileUpload.
    destruct (Z.ltb_spec MAX_GALLERY_IMAGES
                (currentImageCount m + Z.of_nat (length (urls_of arg)))) as [Hover|Hfit].
    - destruct (Z.ltb_spec 0 (Z.max 0 (MAX_GALLERY_IMAGES - currentImageCount m)))
        as [Hroom|Hno]; unfold currentImageCount in *; cbn.
      + rewrite length_app. unfold newPendingImages. rewrite length_imap, length_take. lia.
      + lia.
    - unfold currentImageCount in *; cbn.
      rewrite length_app. unfold newPendingImages. rewrite length_imap. lia. }
  rewrite H. unfold MAX_GALLERY_IMAGES. lia.
Qed.

Lemma Math_max_ge (x : Z) (rest : list Z) :
  x ≤ Math_max x rest ∧ ∀ y, y ∈ rest → y ≤ Math_max x rest.
Proof.
  unfold Math_max. induction rest as [|z rest [IH1 IH2]]; cbn.
  - split; [lia|]. intros y Hy. by apply elem_of_nil in Hy.
  - split; [lia|]. intros y Hy. apply elem_of_cons in Hy as [->|Hy]; [lia|].
    specialize (IH2 y Hy). lia.
Qed.

Lemma getNextOrderValue_above (m : Manager) :
  (∀ img, img ∈ default [] (projectGallery m) → order_or_0 img < getNextOrderValue m)
  ∧ (default [] (projectGallery m) = [] →
     ∀ q, q ∈ pendingImages m → Pending.displayOrder q < getNextOrderValue m).
Proof.
  unfold getNextOrderValue. destruct (projectGallery m) as [[|g gs]|]; cbn.
  - split; [intros img Himg; by apply elem_of_nil in Himg|]. intros _.
    destruct (pendingImages m) as [|p ps]; [intros q Hq; by apply elem_of_nil in Hq|].
    intros q Hq. destruct (Math_max_ge (Pending.displayOrder p) (Pending.displayOrder <$> ps))
      as [H1 H2].
    apply elem_of_cons in Hq as [->|Hq]; [lia|].
    specialize (H2 (Pending.displayOrder q) (list_elem_of_fmap_2 _ _ _ Hq)). lia.
  - split; [|done]. intros img Himg.
    destruct (Math_max_ge (order_or_0 g) (order_or_0 <$> gs)) as [H1 H2].
    apply elem_of_cons in Himg as [->|Himg]; [lia|].
    specialize (H2 (order_or_0 img) (list_elem_of_fmap_2 _ _ _ Himg)). lia.
  - split; [intros img Himg; by apply elem_of_nil in Himg|]. intros _.
    destruct (pendingImages m) as [|p ps]; [intros q Hq; by apply elem_of_nil in Hq|].
    intros q Hq. destruct (Math_max_ge (Pending.displayOrder p) (Pending.displayOrder <$> ps))
      as [H1 H2].
    apply elem_of_cons in Hq as [->|Hq]; [lia|].
    specialize (H2 (Pending.displayOrder q) (list_elem_of_fmap_2 _ _ _ Hq)). lia.
Qed.

Lemma handleFileUpload_appends (arg : UrlsArg) (m : Manager) (w : World) :
  ∃ admitted, pendingImages (handleFileUpload arg m w).1
              = pendingImages m ++ newPendingImages (getNextOrderValue m) admitted.
Proof.
  unfold handleFileUpload.
  destruct (_ <? _); [destruct (_ <? _)|]; cbn.
  - by eexists.
  - exists []. by rewrite app_nil_r.
  - by eexists.
Qed.

(** X5: the display orders an upload gives.  The entries it appends carry
    consecutive display orders, in batch order; each is above the display
    order of every saved image (a null order counting as 0), and, when the
    manager holds no saved image, above that of every image already
    pending. *)
Theorem handleFileUpload_orders (arg : UrlsArg) (m : Manager) (w : World)
    (i : nat) (p : PendingImage) :
  pendingImages (handleFileUpload arg m w).1 !! (length (pendingImages m) + i)%nat = Some p →
  Pending.displayOrder p = getNextOrderValue m + Z.of_nat i
  ∧ (∀ img, img ∈ default [] (projectGallery m) → order_or_0 img < Pending.displayOrder p)
  ∧ (default [] (projectGallery m) = [] →
     ∀ q, q ∈ pendingImages m → Pending.displayOrder q < Pending.displayOrder p).
Proof.
  destruct (handleFileUpload_appends arg m w) as [admitted ->].
  rewrite lookup_app_r by lia.
  replace (length (pendingImages m) + i - length (pendingImages m))%nat with i by lia.
  intros Hp. apply newPendingImages_orders in Hp.
  destruct (getNextOrderValue_above m) as [H1 H2].
  split; [done|]. split.
  - intros img Himg. specialize (H1 img Himg). lia.
  - intros Hnone q Hq. specialize (H2 Hnone q Hq). lia.
Qed.

Lemma handleFileUpload_orders_witness :
  let r := handleFileUpload five_uploads manager_with_eight quiet_world in
  r.1.(pendingImages) !! (length (pendingImages manager_with_eight) + 1)%nat
  = Some (Pending.mk "u2" "Project image 2" 10)
  ∧ ∀ img, img ∈ eight_saved → order_or_0 img < 10.
Proof.
  cbv zeta.
  assert (H : pendingImages (handleFileUpload five_uploads manager_with_eight quiet_world).1
                !! (length (pendingImages manager_with_eight) + 1)%nat
              = Some (Pending.mk "u2" "Project image 2" 10)) by reflexivity.
  split; [exact H|].
  exact (proj1 (proj2 (handleFileUpload_orders five_uploads manager_with_eight quiet_world
                         1 _ H))).
Defined.

(** ** What a save works with *)

Ltac nothing_mirrored :=
  exists []; rewrite app_nil_r;
  split; [done|];
  split; [intros q Hq; by apply elem_of_nil in Hq|];
  split; [intros _ q Hq; by apply elem_of_nil in Hq|];
  split; [done|];
  intros u; split; [by left|intros [?|Hu]; [done|by apply elem_of_nil in Hu]].

(** X6: the list a save works with is the pending list in memory followed
    by images of the mirror, none of which has the URL of an image in
    memory; with nothing in memory it is the whole mirror.  Every URL in
    memory or in the mirror is the URL of an image of that list, and no
    other is. *)
Theorem loaded_merges_mirror (m : Manager) (w : World) :
  ∃ extra,
    loadedPendingImages m w = pendingImages m ++ extra
    ∧ (∀ q, q ∈ extra → q ∈ mirrored m w)
    ∧ (pendingImages m ≠ [] →
       ∀ q, q ∈ extra → Pending.url q ∉ Pending.url <$> pendingImages m)
    ∧ (pendingImages m = [] → extra = mirrored m w)
    ∧ (∀ u, u ∈ Pending.url <$> loadedPendingImages m w ↔
            u ∈ Pending.url <$> pendingImages m ∨ u ∈ Pending.url <$> mirrored m w).
Proof.
  unfold loadedPendingImages, mirrored.
  destruct (localStorage w !! _) as [saved|]; [|nothing_mirrored].
  destruct (stored_truthy saved); [|nothing_mirrored].
  destruct (JSON_parse saved) as [parsed|]; cbn [default]; [|nothing_mirrored].
  destruct parsed as [|q0 qs]; [cbn; nothing_mirrored|].
  destruct (pendingImages m) as [|p0 ps] eqn:Hpend.
  { exists (q0 :: qs). cbn. repeat split; try done.
    - by right.
    - intros [Hu|?]; [by apply elem_of_nil in Hu|done]. }
  cbn [nonempty andb negb].
  set (fresh := filter (λ img, Pending.url img ∉ Pending.url <$> (p0 :: ps)) (q0 :: qs)).
  assert (Hfresh : ∀ q, q ∈ fresh ↔
            (Pending.url q ∉ Pending.url <$> (p0 :: ps)) ∧ q ∈ q0 :: qs)
    by (intros q; unfold fresh; by rewrite list_elem_of_filter).
  exists fresh. split.
  { destruct fresh; [by rewrite app_nil_r|done]. }
  split; [intros q Hq; by apply Hfresh|].
  split; [intros _ q Hq; by apply Hfresh|].
  split; [done|].
  intros u.
  assert (Hu : u ∈ Pending.url <$> ((p0 :: ps) ++ fresh) ↔
               u ∈ Pending.url <$> (p0 :: ps) ∨ u ∈ Pending.url <$> (q0 :: qs)).
  { rewrite fmap_app, elem_of_app. split.
    - intros [?|Hf]; [by left|right].
      apply list_elem_of_fmap in Hf as (q & -> & Hq). apply Hfresh in Hq as [_ Hq].
      by apply list_elem_of_fmap_2.
    - intros [?|Hq]; [by left|].
      destruct (decide (u ∈ Pending.url <$> (p0 :: ps))) as [?|Hnot]; [by left|right].
      apply list_elem_of_fmap in Hq as (q & -> & Hq).
      apply list_elem_of_fmap_2. by apply Hfresh. }
  destruct fresh eqn:Hf; [|done].
  rewrite app_nil_r in Hu. done.
Qed.

(** ** The de-duplication key *)

Lemma before_query_app_query (u q : string) :
  before_query (u +:+ "?" +:+ q) = before_query u.
Proof.
  induction u as [|c u IH]; [done|].
  simpl. destruct (Ascii.eqb c "?"); [done|]. by rewrite IH.
Qed.

Lemma before_query_fixed (s : string) :
  before_query (before_query s) = before_query s.
Proof.
  induction s as [|c s IH]; [done|].
  cbn. destruct (Ascii.eqb c "?") eqn:Hc; [done|]. cbn. by rewrite Hc, IH.
Qed.

Lemma no_query_tail c s : no_query (String c s) → no_query s.
Proof.
  unfold no_query. cbn. destruct (Ascii.eqb c "?"); [done|]. by intros [= ->].
Qed.

Lemma no_query_trim_start s : no_query s → no_query (trim_start s).
Proof.
  induction s as [|c s IH]; [done|]. intros H. cbn.
  destruct (is_white c); [|done]. apply IH. by eapply no_query_tail.
Qed.

Lemma no_query_trim_end s : no_query s → no_query (trim_end s).
Proof.
  induction s as [|c s IH]; [done|]. intros H.
  pose proof (IH (no_query_tail _ _ H)) as IH'.
  unfold no_query in *. cbn in *.
  destruct (Ascii.eqb c "?") eqn:Hc; [done|].
  destruct (trim_end s) as [|c' r'] eqn:Ht.
  - destruct (is_white c); [done|]. cbn. by rewrite Hc.
  - cbn. rewrite Hc. cbn in IH'. by rewrite IH'.
Qed.

Lemma trim_end_fixed s : trim_end (trim_end s) = trim_end s.
Proof.
  induction s as [|c s IH]; [done|]. cbn.
  destruct (trim_end s) as [|c' r'] eqn:Ht.
  - destruct (is_white c) eqn:Hw; [done|]. cbn. by rewrite Hw.
  - cbn. cbn in IH. by rewrite IH.
Qed.

Lemma trim_start_trim (s : string) : trim_start (trim s) = trim s.
Proof.
  unfold trim. induction s as [|c s IH]; [done|]. cbn [trim_start].
  destruct (is_white c) eqn:Hw; [done|].
  cbn [trim_end]. destruct (trim_end s); rewrite ?Hw; cbn [trim_start]; by rewrite Hw.
Qed.

Lemma trim_fixed (s : string) : trim (trim s) = trim s.
Proof.
  unfold trim at 1. rewrite trim_start_trim. unfold trim. apply trim_end_fixed.
Qed.

(** X7: the key under which images are compared.  A query string does not
    count: a URL followed by a question mark and anything else has the key of
    the URL.  Taking the key of a key changes nothing.  Hence an image whose
    URL is the URL of an existing image followed by a query string is not
    new to the save routine. *)
Theorem normalize_ignores_query (u q : string) :
  normalize (u +:+ "?" +:+ q) = normalize u
  ∧ normalize (normalize u) = normalize u
  ∧ (∀ existing caption displayOrder,
       u ∈ existing →
       isNew existing (Pending.mk (u +:+ "?" +:+ q) caption displayOrder) = false).
Proof.
  assert (H1 : normalize (u +:+ "?" +:+ q) = normalize u)
    by (unfold normalize; by rewrite before_query_app_query).
  split; [done|]. split.
  - unfold normalize.
    assert (no_query (trim (before_query u))) as ->.
    { unfold trim. apply no_query_trim_end, no_query_trim_start.
      apply before_query_fixed. }
    apply trim_fixed.
  - intros existing caption displayOrder Hu.
    apply not_true_is_false. intros Hnew. rewrite isNew_spec in Hnew.
    by apply (Hnew u Hu).
Qed.

(** ** Outcomes of a save *)

(** X8: what a successful save leaves.  When the save for an existing
    project returns normally, its gallery request having been answered with
    the gallery, every image it worked with that has a URL is in the owner's
    remote gallery, under its normalized URL; nothing is pending in memory
    any more, and the mirror holds nothing usable. *)
Theorem save_covers_loaded (m : Manager) (w : World) :
  isNewProject m = false →
  poor_reply_at w (clock w) = false →
  (saveGalleryImages m w).1.1 = Returned →
  (∀ p, p ∈ loadedPendingImages m w → truthy (Pending.url p) = true →
        ∃ row, row ∈ table (saveGalleryImages m w).2
               ∧ Gallery.projectId row = dynamicProjectId m
               ∧ normalize (Gallery.imageUrl row) = normalize (Pending.url p))
  ∧ pendingImages (saveGalleryImages m w).1.2 = []
  ∧ mirrored (saveGalleryImages m w).1.2 (saveGalleryImages m w).2 = [].
Proof.
  intros Hnew Hpoor Hret.
  destruct (nonempty (loadedPendingImages m w)) eqn:Hne.
  2:{ pose proof (save_nothing_loaded m w Hne) as Hs. rewrite Hs. cbn.
      destruct (loaded_merges_mirror m w) as (extra & Hl & _ & _ & Hempty & _).
      destruct (loadedPendingImages m w) as [|? ?] eqn:Hload; [|done].
      symmetry in Hl. apply app_eq_nil in Hl as [Hp ->].
      split; [intros p Hp'; by apply elem_of_nil in Hp'|]. split; [done|].
      symmetry. by apply Hempty. }
  destruct (save_saved_inv m w Hnew Hne Hret)
    as (_ & Hp1 & Hid & _ & w2 & (Htable & _) & Hw1).
  cbn in Htable.
  assert (Ht1 : table (saveGalleryImages m w).2
                = table w ++ rows_of (dynamicProjectId m) (next_id w) (creates (newOnes m w)))
    by (rewrite Hw1; cbn; done).
  split; [|split; [done|]].
  - intros p Hp Htruthy.
    destruct (isNew (existingImageUrls (gallery_reply (dynamicProjectId m) w) m) p)
      eqn:Hnew0.
    + assert (p ∈ creates (newOnes m w)) as Hc.
      { unfold creates, newOnes. apply list_elem_of_filter. split; [done|].
        by apply list_elem_of_filter. }
      apply (rows_of_elem (dynamicProjectId m) (next_id w)) in Hc as [id Hrow].
      exists (row_of (dynamicProjectId m) id p). split; [|done].
      rewrite Ht1. apply elem_of_app. by right.
    + rewrite existing_of_table in Hnew0 by done.
      unfold isNew in Hnew0. apply negb_false_iff, existsb_exists in Hnew0
        as (e & He & Heq).
      apply String.eqb_eq in Heq. apply list_elem_of_In in He.
      apply list_elem_of_fmap in He as (row & -> & Hrow).
      apply list_elem_of_filter in Hrow as [Hown Hrow].
      exists row. split; [|done]. rewrite Ht1. apply elem_of_app. by left.
  - unfold mirrored. rewrite Hid, Hw1. cbn. by rewrite lookup_delete_eq.
Qed.

Lemma save_covers_loaded_witness :
  let r := saveGalleryImages manager_three world_answering in
  r.1.1 = Returned
  ∧ pendingImages r.1.2 = []
  ∧ ∃ row, row ∈ table r.2 ∧ normalize (Gallery.imageUrl row) = normalize "x2".
Proof.
  cbv zeta.
  assert (H : (saveGalleryImages manager_three world_answering).1.1 = Returned)
    by (vm_compute; reflexivity).
  split; [exact H|].
  destruct (save_covers_loaded manager_three world_answering eq_refl eq_refl H)
    as (Hcover & Hpending & _).
  split; [exact Hpending|].
  destruct (Hcover (Pending.mk "x2" "Project image 2" 2)) as (row & Hrow & _ & Hkey).
  - vm_compute. right. left.
  - reflexivity.
  - exists row. split; [exact Hrow | exact Hkey].
Defined.

Lemma saveTry_rejected_store (m : Manager) (w : World) (e : Error) (w1 : World) :
  saveTry m (loadedPendingImages m w) w = (Rejected e, w1) →
  localStorage w1 = localStorage w.
Proof.
  destruct (isNewProject m) eqn:Hnew.
  - unfold saveTry. rewrite Hnew. unfold mbind, Async_bind, bind, act, ret.
    pose proof (commitPhase_same_store m (Pending.url <$> loadedPendingImages m w) w)
      as (_ & _ & Hs & _).
    destruct (commitPhase _ _ _) as [[u|e'] w']; [done|]. by intros [= _ <-].
  - destruct (fail_at w (clock w)) eqn:Hget.
    { unfold saveTry. rewrite Hnew. unfold mbind, Async_bind, bind.
      rewrite apiGetGallery_rejected by done. by intros [= _ <-]. }
    rewrite saveTry_existing by done. cbv zeta.
    destruct (persistAll_requests (dynamicProjectId m) (newOnes m w)
                (after_get (dynamicProjectId m) w)) as (_ & _ & _ & Hs).
    destruct (persistAll _ _ _) as [[u|e'] w']; cbn in Hs.
    + match goal with |- context [commitPhase m ?urls ?w1] =>
        pose proof (commitPhase_same_store m urls w1) as (_ & _ & Hs' & _);
        destruct (commitPhase m urls w1) as [[u'|e''] w2] end; [done|].
      intros [= _ <-]. cbn in Hs'. congruence.
    + by intros [= _ <-].
Qed.

(** X9: a save that throws, at whatever stage (the gallery request, a
    create request, a commit), leaves the pending list and the whole of the
    local storage as they were, so that it can be tried again; it has shown
    the failure toast as its last act and is no longer marked as uploading. *)
Theorem save_threw_keeps_pending (m : Manager) (w : World) (e : Error) :
  (saveGalleryImages m w).1.1 = Threw e →
  pendingImages (saveGalleryImages m w).1.2 = pendingImages m
  ∧ localStorage (saveGalleryImages m w).2 = localStorage w
  ∧ isUploading (saveGalleryImages m w).1.2 = false
  ∧ last (log (saveGalleryImages m w).2) = Some toastSaveFailed.
Proof.
  unfold saveGalleryImages. destruct (negb _); [done|].
  destruct (saveTry _ _ _) as [[[]|e'] w1] eqn:Htry; try done.
  intros _. cbn. apply saveTry_rejected_store in Htry.
  repeat split; try done. by rewrite last_snoc.
Qed.

Lemma save_threw_keeps_pending_witness :
  (saveGalleryImages manager_three world_three).1.1 = Threw (RequestFailed 2)
  ∧ pendingImages (saveGalleryImages manager_three world_three).1.2 = three_pending.
Proof.
  assert (H : (saveGalleryImages manager_three world_three).1.1 = Threw (RequestFailed 2))
    by (vm_compute; reflexivity).
  split; [exact H|].
  exact (proj1 (save_threw_keeps_pending manager_three world_three _ H)).
Defined.

Lemma commitAll_ok (sessions : list string) (fileUrls : list string) (w : World) :
  (∀ k, (k < length sessions)%nat → fail_at w (clock w + k) = false) →
  commitAll sessions fileUrls w
  = (Resolved (),
     mkWorld (table w) (next_id w) (clock w + length sessions)%nat (fail_at w)
             (poor_reply_at w) (localStorage w)
             (log w ++ ((λ sessionId, CommitUploads sessionId fileUrls) <$> sessions))).
Proof.
  revert w. induction sessions as [|sessionId rest IH]; intros w Hok.
  - cbn. f_equal. apply World_eq; cbn; rewrite ?app_nil_r; try done; lia.
  - cbn [commitAll]. unfold mbind, Async_bind, bind, commitUploadsCall, remote.
    pose proof (Hok 0%nat ltac:(cbn; lia)) as Hok0. rewrite Nat.add_0_r in Hok0.
    rewrite Hok0. cbn. rewrite IH.
    + f_equal. apply World_eq; cbn; try done; try lia. by rewrite <- app_assoc.
    + intros k Hk. cbn. specialize (Hok (S k)).
      replace (S (clock w + k))%nat with (clock w + S k)%nat by lia.
      apply Hok. cbn. lia.
Qed.

(** X10: the save for a project that is not created yet.  With something to
    save and every commit call answered, it persists nothing, keeps the
    pending list and the mirror, commits each tracked session, in order, with
    the URLs of all the images it worked with, and announces that the images
    will be added after the project is created. *)
Theorem save_new_project_defers (m : Manager) (w : World) :
  isNewProject m = true →
  loadedPendingImages m w ≠ [] →
  (∀ k, (k < length (uploadSessions m))%nat → fail_at w (clock w + k) = false) →
  let r := saveGalleryImages m w in
  let fileUrls := Pending.url <$> loadedPendingImages m w in
  r.1.1 = Returned
  ∧ pendingImages r.1.2 = pendingImages m
  ∧ localStorage r.2 = localStorage w
  ∧ table r.2 = table w
  ∧ log r.2 = log w ++ (if commitUploads m
                        then (λ sessionId, CommitUploads sessionId fileUrls)
                               <$> uploadSessions m
                        else [])
                    ++ [toastDeferred (Z.of_nat (length (loadedPendingImages m w)))].
Proof.
  intros Hnew Hne Hok r fileUrls. subst r fileUrls. unfold saveGalleryImages.
  destruct (loadedPendingImages m w) as [|p0 ps] eqn:Hl; [done|]. cbn [nonempty negb].
  unfold saveTry. rewrite Hnew. unfold mbind, Async_bind, bind, act, ret, commitPhase.
  destruct (commitUploads m); cbn [andb].
  - destruct (uploadSessions m) as [|s0 ss] eqn:Hs; cbn [nonempty].
    + by cbn.
    + rewrite commitAll_ok by done. cbn. by rewrite <- !app_assoc.
  - by cbn.
Qed.

Lemma save_new_project_defers_witness :
  let r := saveGalleryImages manager_idle_draft world_mirrored in
  loadedPendingImages manager_idle_draft world_mirrored ≠ []
  ∧ r.1.1 = Returned
  ∧ table r.2 = []
  ∧ log r.2 = [CommitUploads "s1" ["a"]; toastDeferred 1].
Proof.
  cbv zeta.
  assert (H : loadedPendingImages manager_idle_draft world_mirrored ≠ [])
    by (vm_compute; discriminate).
  split; [exact H|].
  destruct (save_new_project_defers manager_idle_draft world_mirrored eq_refl H)
    as (Hret & _ & _ & Htable & Hlog).
  - intros k _. reflexivity.
  - split; [exact Hret|]. split; [exact Htable|]. exact Hlog.
Defined.

(** ** Display order of saved images, further *)

Lemma twoOrderUpdates_spec (id1 : nat) (d1 : Z) (id2 : nat) (d2 : Z)
    (m : Manager) (w : World) :
  let f1 := fail_at w (clock w) in
  let f2 := fail_at w (S (clock w)) in
  let r := twoOrderUpdates id1 d1 id2 d2 m w in
  log r.2 = log w ++ [UpdateProjectGalleryImage id1 d1; UpdateProjectGalleryImage id2 d2;
                     orderToast f1; orderToast f2]
  ∧ table r.2 = order_unless f2 id2 d2 <$> (order_unless f1 id1 d1 <$> table w)
  ∧ modifiedOrders r.1
    = (({[id2]} ∪ ({[id1]} ∪ modifiedOrders m)) ∖ (if f1 then ∅ else {[id1]}))
        ∖ (if f2 then ∅ else {[id2]})
  ∧ localStorage r.2 = localStorage w
  ∧ pendingImages r.1 = pendingImages m.
Proof.
  cbv zeta. unfold twoOrderUpdates, updateOrderRequest, updateProjectGalleryImage, remote.
  destruct (fail_at w (clock w)) eqn:Hf1; cbn; rewrite ?Hf1;
    destruct (fail_at w (S (clock w))) eqn:Hf2; cbn;
    rewrite <- ?app_assoc; cbn; unfold order_unless;
    rewrite ?list_fmap_id; repeat split; try done;
    try (apply set_eq; intros x;
         rewrite !elem_of_difference, !elem_of_union, ?elem_of_singleton, ?elem_of_empty;
         intuition congruence).
  all: try (by rewrite <- (list_fmap_id (table w)) at 1; apply list_fmap_ext).
Qed.

Lemma moveImageOrderUp_target (m : Manager) (pre post : list ProjectGallery)
    (A : ProjectGallery) (a b : Z) (id : nat) (w : World) :
  projectGallery m = Some (pre ++ A :: post) →
  Gallery.displayOrder A = Some a →
  a < b →
  (∀ img d, img ∈ pre → Gallery.displayOrder img = Some d → d < b → d < a) →
  (∀ img d, img ∈ post → Gallery.displayOrder img = Some d → d < b → d ≤ a) →
  moveImageOrderUp id (Some b) m w = twoOrderUpdates id a (Gallery.id A) b m w.
Proof.
  intros Hg HA Hab Hpre Hpost. unfold moveImageOrderUp. rewrite Hg.
  rewrite filter_app, filter_cons_True by (unfold below; rewrite HA; by apply Z.ltb_lt).
  match goal with
  | |- context [Array_sort ?c ?l] =>
      assert (Hhead : head (Array_sort c l) = Some A);
      [|destruct (Array_sort c l) as [|target rest]; [done|injection Hhead as ->]]
  end.
  { apply Array_sort_head.
    - intros y Hy. apply list_elem_of_filter in Hy as [Hy Hin].
      unfold below in Hy. unfold order_or_0.
      destruct (Gallery.displayOrder y) as [d|] eqn:Hd; [|done].
      apply Z.ltb_lt in Hy. specialize (Hpre y d Hin Hd Hy). rewrite HA. cbn. lia.
    - intros y Hy. apply list_elem_of_filter in Hy as [Hy Hin].
      unfold below in Hy. unfold order_or_0.
      destruct (Gallery.displayOrder y) as [d|] eqn:Hd; [|done].
      apply Z.ltb_lt in Hy. specialize (Hpost y d Hin Hd Hy). rewrite HA. cbn. lia. }
  unfold order_or_0. by rewrite HA.
Qed.

Lemma moveImageOrderDown_target (m : Manager) (pre post : list ProjectGallery)
    (A : ProjectGallery) (a b : Z) (id : nat) (w : World) :
  projectGallery m = Some (pre ++ A :: post) →
  Gallery.displayOrder A = Some a →
  b < a →
  (∀ img d, img ∈ pre → Gallery.displayOrder img = Some d → b < d → a < d) →
  (∀ img d, img ∈ post → Gallery.displayOrder img = Some d → b < d → a ≤ d) →
  moveImageOrderDown id (Some b) m w = twoOrderUpdates id a (Gallery.id A) b m w.
Proof.
  intros Hg HA Hab Hpre Hpost. unfold moveImageOrderDown. rewrite Hg.
  rewrite filter_app, filter_cons_True by (unfold above; rewrite HA; by apply Z.ltb_lt).
  match goal with
  | |- context [Array_sort ?c ?l] =>
      assert (Hhead : head (Array_sort c l) = Some A);
      [|destruct (Array_sort c l) as [|target rest]; [done|injection Hhead as ->]]
  end.
  { apply Array_sort_head.
    - intros y Hy. apply list_elem_of_filter in Hy as [Hy Hin].
      unfold above in Hy. unfold order_or_0.
      destruct (Gallery.displayOrder y) as [d|] eqn:Hd; [|done].
      apply Z.ltb_lt in Hy. specialize (Hpre y d Hin Hd Hy). rewrite HA. cbn. lia.
    - intros y Hy. apply list_elem_of_filter in Hy as [Hy Hin].
      unfold above in Hy. unfold order_or_0.
      destruct (Gallery.displayOrder y) as [d|] eqn:Hd; [|done].
      apply Z.ltb_lt in Hy. specialize (Hpost y d Hin Hd Hy). rewrite HA. cbn. lia. }
  unfold order_or_0. by rewrite HA.
Qed.

(** X11: [moveImageOrderDown] called for a saved image B with its display
    order [b], when A is the saved image with the least display order
    strictly above [b] (the first such image of the gallery, should several
    share that order) and both update calls succeed: B is sent the order of
    A, A is sent [b], and in the remote table the rows of A then carry [b],
    the rows of B the former order of A, every other row being as before. *)
Theorem moveImageOrderDown_swaps (m : Manager) (w : World)
    (pre post : list ProjectGallery) (A B : ProjectGallery) (a b : Z) :
  projectGallery m = Some (pre ++ A :: post) →
  Gallery.displayOrder A = Some a →
  Gallery.displayOrder B = Some b →
  b < a →
  (∀ img d, img ∈ pre → Gallery.displayOrder img = Some d → b < d → a < d) →
  (∀ img d, img ∈ post → Gallery.displayOrder img = Some d → b < d → a ≤ d) →
  Gallery.id A ≠ Gallery.id B →
  fail_at w (clock w) = false →
  fail_at w (S (clock w)) = false →
  let r := moveImageOrderDown (Gallery.id B) (Gallery.displayOrder B) m w in
  log r.2 = log w ++ [UpdateProjectGalleryImage (Gallery.id B) a;
                     UpdateProjectGalleryImage (Gallery.id A) b;
                     toastOrderUpdated; toastOrderUpdated]
  ∧ (∀ (k : nat) row, table w !! k = Some row →
       Gallery.displayOrder <$> (table r.2 !! k)
       = Some (swapped_order (Gallery.id A) (Gallery.id B) a b row)).
Proof.
  intros Hg HA HB Hab Hpre Hpost Hne Hf1 Hf2 r. subst r. rewrite HB.
  rewrite (moveImageOrderDown_target m pre post A a b) by done.
  destruct (twoOrderUpdates_spec (Gallery.id B) a (Gallery.id A) b m w)
    as (Hlog & Htable & _).
  rewrite Hf1, Hf2 in Hlog, Htable. split; [done|].
  intros k row Hk. rewrite Htable, !list_lookup_fmap, Hk. cbn. f_equal.
  unfold order_unless. rewrite set_order_order, set_order_id, set_order_order.
  unfold swapped_order. repeat destruct (decide _); try done.
Qed.

Lemma moveImageOrderDown_swaps_witness :
  let r := moveImageOrderDown 1 (Some 2) manager_two world_two in
  projectGallery manager_two
  = Some ([Gallery.mk 1 7 "a" None (Some 2)] ++ Gallery.mk 2 7 "b" None (Some 5) :: [])
  ∧ 2 < 5
  ∧ log r.2 = [UpdateProjectGalleryImage 1 5; UpdateProjectGalleryImage 2 2;
               toastOrderUpdated; toastOrderUpdated].
Proof.
  cbv zeta. split; [reflexivity|]. split; [lia|].
  pose proof (moveImageOrderDown_swaps manager_two world_two
                [Gallery.mk 1 7 "a" None (Some 2)] []
                (Gallery.mk 2 7 "b" None (Some 5)) (Gallery.mk 1 7 "a" None (Some 2))
                5 2 eq_refl eq_refl eq_refl) as H.
  cbn [Gallery.id Gallery.displayOrder] in H.
  destruct H as (Hlog & _).
  - lia.
  - intros img d Himg Hd Hlt. apply list_elem_of_singleton in Himg. subst img.
    cbn in Hd. injection Hd as <-. lia.
  - intros img d Himg. by apply elem_of_nil in Himg.
  - cbn. lia.
  - reflexivity.
  - reflexivity.
  - exact Hlog.
Defined.

(** X12: the two updates of a move are independent.  Under the conditions
    in which [moveImageOrderUp] finds A for B, both update calls always go
    out, and each takes effect exactly when its own call is not rejected:
    when only the second is rejected, the rows of B carry the order of A
    while A keeps it; when only the first is rejected, the rows of A carry
    the order of B while B keeps it.  The image of a rejected call stays
    marked as modified. *)
Theorem moveImageOrderUp_independent (m : Manager) (w : World)
    (pre post : list ProjectGallery) (A B : ProjectGallery) (a b : Z) :
  projectGallery m = Some (pre ++ A :: post) →
  Gallery.displayOrder A = Some a →
  Gallery.displayOrder B = Some b →
  a < b →
  (∀ img d, img ∈ pre → Gallery.displayOrder img = Some d → d < b → d < a) →
  (∀ img d, img ∈ post → Gallery.displayOrder img = Some d → d < b → d ≤ a) →
  Gallery.id A ≠ Gallery.id B →
  let f1 := fail_at w (clock w) in
  let f2 := fail_at w (S (clock w)) in
  let r := moveImageOrderUp (Gallery.id B) (Gallery.displayOrder B) m w in
  log r.2 = log w ++ [UpdateProjectGalleryImage (Gallery.id B) a;
                     UpdateProjectGalleryImage (Gallery.id A) b;
                     orderToast f1; orderToast f2]
  ∧ table r.2 = order_unless f2 (Gallery.id A) b
                  <$> (order_unless f1 (Gallery.id B) a <$> table w)
  ∧ (f1 = true → Gallery.id B ∈ modifiedOrders r.1)
  ∧ (f2 = true → Gallery.id A ∈ modifiedOrders r.1).
Proof.
  intros Hg HA HB Hab Hpre Hpost Hne f1 f2 r. subst r f1 f2. rewrite HB.
  rewrite (moveImageOrderUp_target m pre post A a b) by done.
  destruct (twoOrderUpdates_spec (Gallery.id B) a (Gallery.id A) b m w)
    as (Hlog & Htable & Hmod & _).
  split; [done|]. split; [done|]. rewrite Hmod.
  split; intros Hf; rewrite Hf.
  - destruct (fail_at w (S (clock w)));
      rewrite !elem_of_difference, !elem_of_union, !elem_of_singleton;
      rewrite ?elem_of_empty; naive_solver.
  - destruct (fail_at w (clock w));
      rewrite !elem_of_difference, !elem_of_union, !elem_of_singleton;
      rewrite ?elem_of_empty; naive_solver.
Qed.

Lemma moveImageOrderUp_independent_witness :
  let w := mkWorld two_rows 3 0 (λ t, Nat.eqb t 1) (λ _, false) ∅ [] in
  let r := moveImageOrderUp 2 (Some 5) manager_two w in
  2 < 5
  ∧ table r.2 = [Gallery.mk 1 7 "a" None (Some 2); Gallery.mk 2 7 "b" None (Some 2)]
  ∧ 1%nat ∈ modifiedOrders r.1.
Proof.
  cbv zeta. split; [lia|].
  pose proof (moveImageOrderUp_independent manager_two
                (mkWorld two_rows 3 0 (λ t, Nat.eqb t 1) (λ _, false) ∅ []) []
                [Gallery.mk 2 7 "b" None (Some 5)]
                (Gallery.mk 1 7 "a" None (Some 2)) (Gallery.mk 2 7 "b" None (Some 5))
                2 5 eq_refl eq_refl eq_refl) as H.
  cbn [Gallery.id Gallery.displayOrder] in H.
  destruct H as (_ & Htable & _ & Hmod).
  - lia.
  - intros img d Himg. by apply elem_of_nil in Himg.
  - intros img d Himg Hd Hlt. apply list_elem_of_singleton in Himg. subst img.
    cbn in Hd. injection Hd as <-. lia.
  - cbn. lia.
  - split; [exact Htable|]. by apply Hmod.
Defined.

(** ** Unsaved changes *)

(** X13: what the parent is told about unsaved changes.  There are unsaved
    changes exactly when their count is positive; the count is zero exactly
    when nothing is pending and no caption or order is being saved; pending
    images are unsaved changes, and there are pending images exactly when
    the pending list is not empty. *)
Theorem unsaved_changes_count (modifiedCaptions : gset nat) (m : Manager) :
  (hasUnsavedChanges modifiedCaptions m = true ↔ 0 < getUnsavedChangesCount modifiedCaptions m)
  ∧ (getUnsavedChangesCount modifiedCaptions m = 0 ↔
     pendingImages m = [] ∧ modifiedCaptions = ∅ ∧ modifiedOrders m = ∅)
  ∧ (hasPendingImages m = true → hasUnsavedChanges modifiedCaptions m = true)
  ∧ (hasPendingImages m = true ↔ pendingImages m ≠ []).
Proof.
  unfold hasUnsavedChanges, getUnsavedChangesCount, hasPendingImages.
  split; [|split; [|split]].
  - rewrite !orb_true_iff, !Z.ltb_lt. lia.
  - split.
    + intros H.
      assert (length (pendingImages m) = 0%nat ∧ size modifiedCaptions = 0%nat
              ∧ size (modifiedOrders m) = 0%nat) as (H1 & H2 & H3) by lia.
      split; [by apply length_zero_iff_nil|].
      split; apply leibniz_equiv; by apply size_empty_iff.
    + intros (-> & -> & ->). by rewrite size_empty.
  - intros ->. done.
  - rewrite Z.ltb_lt. destruct (pendingImages m); cbn; split; (done || lia).
Qed.

(** X14: one order update.  Without a display order nothing happens.  With
    one, the call goes out; when it succeeds the row carries the order and
    the image is no longer marked as modified; when it is rejected the table
    is as before and the image stays marked, so that unsaved changes are
    reported. *)
Theorem handleUpdateImageOrder_outcomes (id : nat) (d : Z) (m : Manager) (w : World)
    (modifiedCaptions : gset nat) :
  let r := handleUpdateImageOrder id (Some d) m w in
  handleUpdateImageOrder id None m w = (m, w)
  ∧ log r.2 = log w ++ [UpdateProjectGalleryImage id d; orderToast (fail_at w (clock w))]
  ∧ table r.2 = order_unless (fail_at w (clock w)) id d <$> table w
  ∧ (fail_at w (clock w) = false → modifiedOrders r.1 = modifiedOrders m ∖ {[id]})
  ∧ (fail_at w (clock w) = true →
     modifiedOrders r.1 = {[id]} ∪ modifiedOrders m
     ∧ hasUnsavedChanges modifiedCaptions r.1 = true).
Proof.
  cbv zeta. unfold handleUpdateImageOrder, updateOrderRequest, updateProjectGalleryImage,
    remote, order_unless.
  destruct (fail_at w (clock w)) eqn:Hf; cbn.
  - rewrite list_fmap_id, <- app_assoc. repeat split; try done.
    unfold hasUnsavedChanges. cbn.
    assert (size ({[id]} ∪ modifiedOrders m) ≠ 0%nat) as Hs.
    { intros H0. apply size_empty_iff in H0.
      assert (id ∈ ({[id]} ∪ modifiedOrders m)) as Hin
        by (apply elem_of_union; left; by apply elem_of_singleton).
      rewrite H0 in Hin. by apply elem_of_empty in Hin. }
    rewrite !orb_true_iff, !Z.ltb_lt. right. lia.
  - rewrite <- app_assoc. repeat split; try done.
    intros _. apply set_eq. intros x.
    rewrite !elem_of_difference, !elem_of_union, !elem_of_singleton. intuition congruence.
Qed.

(** ** Reordering by drag and drop *)

Lemma order_updates_in_app l1 l2 :
  order_updates_in (l1 ++ l2) = order_updates_in l1 ++ order_updates_in l2.
Proof. apply omap_app. Qed.

Lemma updateOrderRequest_log id d m w :
  log (updateOrderRequest id d m w).2 = log w ++ [UpdateProjectGalleryImage id d].
Proof.
  unfold updateOrderRequest, updateProjectGalleryImage, remote.
  by destruct (fail_at w (clock w)).
Qed.

Lemma reorderRequests_log (items : list ProjectGallery) (m : Manager) (w : World) :
  log (reorderRequests items m w).2
  = log w ++ ((λ pair, UpdateProjectGalleryImage pair.1 pair.2) <$> orderPairs items).
Proof.
  revert m w. induction items as [|item rest IH]; intros m w; cbn.
  - by rewrite app_nil_r.
  - unfold orderPairs in *. cbn. destruct (Gallery.displayOrder item) as [d|]; cbn; [|apply IH].
    pose proof (updateOrderRequest_log (Gallery.id item) d m w) as Hlog.
    destruct (updateOrderRequest (Gallery.id item) d m w) as [[r m1] w1]. cbn in Hlog.
    specialize (IH m1 w1).
    destruct (reorderRequests rest m1 w1) as [[rs m2] w2]. cbn in IH |- *.
    by rewrite IH, Hlog, <- app_assoc.
Qed.

Lemma reorderSettled_log (rs : list (nat * Reply unit)) (m : Manager) (w : World) :
  order_updates_in (log (reorderSettled rs m w).2) = order_updates_in (log w)
  ∧ table (reorderSettled rs m w).2 = table w.
Proof.
  revert m w. induction rs as [|[id r] rest IH]; intros m w; [done|].
  cbn [reorderSettled].
  destruct (updateOrderSettled id r m w) as [m1 w1] eqn:Hs.
  destruct (IH m1 w1) as [IH1 IH2]. rewrite IH1, IH2.
  unfold updateOrderSettled in Hs. destruct r; injection Hs as <- <-; cbn;
    rewrite order_updates_in_app; cbn; by rewrite app_nil_r.
Qed.

Lemma order_updates_in_requests (pairs : list (nat * Z)) :
  order_updates_in ((λ pair, UpdateProjectGalleryImage pair.1 pair.2) <$> pairs) = pairs.
Proof. induction pairs as [|[id d] rest IH]; [done|]. cbn. f_equal. exact IH. Qed.

Lemma reorderRequests_table (items : list ProjectGallery) (m : Manager) (w : World) :
  (∀ k, (k < length (orderPairs items))%nat → fail_at w (clock w + k) = false) →
  table (reorderRequests items m w).2 = apply_orders (orderPairs items) <$> table w.
Proof.
  revert m w. induction items as [|item rest IH]; intros m w Hok.
  - cbn. by rewrite list_fmap_id.
  - unfold orderPairs in *. cbn [reorderRequests omap list_omap] in *.
    destruct (Gallery.displayOrder item) as [d|]; cbn [fmap option_fmap option_map] in *;
      [|by apply IH].
    cbn [length] in Hok.
    pose proof (Hok 0%nat ltac:(lia)) as Hok0. rewrite Nat.add_0_r in Hok0.
    unfold updateOrderRequest, updateProjectGalleryImage, remote. rewrite Hok0.
    cbn -[reorderRequests].
    match goal with |- context [reorderRequests rest ?m1 ?w1] =>
      specialize (IH m1 w1); destruct (reorderRequests rest m1 w1) as [[rs m2] w2] end.
    cbn in IH |- *. rewrite IH.
    + rewrite <- list_fmap_compose. by apply list_fmap_ext.
    + intros k Hk. specialize (Hok (S k)).
      replace (S (clock w + k))%nat with (clock w + S k)%nat by lia. apply Hok. lia.
Qed.

Lemma apply_orders_id (pairs : list (nat * Z)) (row : ProjectGallery) :
  Gallery.id (apply_orders pairs row) = Gallery.id row.
Proof.
  unfold apply_orders. revert row. induction pairs as [|[id d] rest IH]; intros row; [done|].
  cbn. by rewrite IH, set_order_id.
Qed.

Lemma apply_orders_other (pairs : list (nat * Z)) (row : ProjectGallery) :
  Gallery.id row ∉ pairs.*1 → apply_orders pairs row = row.
Proof.
  unfold apply_orders. revert row. induction pairs as [|[id d] rest IH]; intros row Hnot;
    [done|].
  cbn in *. apply not_elem_of_cons in Hnot as [Hne Hnot].
  unfold set_order at 2. destruct (decide (Gallery.id row = id)); [done|]. by apply IH.
Qed.

Lemma apply_orders_member (pairs : list (nat * Z)) (row : ProjectGallery) (d : Z) :
  NoDup pairs.*1 → (Gallery.id row, d) ∈ pairs →
  Gallery.displayOrder (apply_orders pairs row) = Some d.
Proof.
  unfold apply_orders. revert row. induction pairs as [|[id' d'] rest IH];
    intros row Hnd Hin; [by apply elem_of_nil in Hin|].
  cbn in *. apply NoDup_cons in Hnd as [Hfresh Hnd].
  apply elem_of_cons in Hin as [[= <- <-]|Hin].
  - fold (apply_orders rest (set_order (Gallery.id row) d row)).
    rewrite apply_orders_other by (by rewrite set_order_id).
    rewrite set_order_order. by destruct (decide _).
  - apply IH; [done|]. by rewrite set_order_id.
Qed.

(** X15: reordering the saved images.  One update call goes out for every
    item that has a display order, in item order, whether or not the order of
    the item has changed and whatever becomes of the other calls.  When all
    the calls succeed and no two items share an identifier, every row of the
    remote table whose identifier is that of an item carries the display
    order of that item, and every other row is as before. *)
Theorem onReorderSavedItems_updates (items : list ProjectGallery) (m : Manager) (w : World) :
  let r := onReorderSavedItems items m w in
  order_updates_in (log r.2) = order_updates_in (log w) ++ orderPairs items
  ∧ ((∀ k, (k < length (orderPairs items))%nat → fail_at w (clock w + k) = false) →
     NoDup (orderPairs items).*1 →
     ∀ (k : nat) row, table w !! k = Some row →
       ∃ row', table r.2 !! k = Some row'
               ∧ Gallery.id row' = Gallery.id row
               ∧ (∀ d, (Gallery.id row, d) ∈ orderPairs items →
                       Gallery.displayOrder row' = Some d)
               ∧ (Gallery.id row ∉ (orderPairs items).*1 → row' = row)).
Proof.
  cbv zeta. unfold onReorderSavedItems.
  pose proof (reorderRequests_log items m w) as Hlog.
  pose proof (reorderRequests_table items m w) as Htable.
  destruct (reorderRequests items m w) as [[rs m1] w1]. cbn in Hlog, Htable.
  destruct (reorderSettled_log rs m1 w1) as [Hl Ht].
  split.
  - by rewrite Hl, Hlog, order_updates_in_app, order_updates_in_requests.
  - intros Hok Hnd k row Hk. rewrite Ht, Htable by done.
    exists (apply_orders (orderPairs items) row).
    rewrite list_lookup_fmap, Hk. split; [done|].
    split; [apply apply_orders_id|]. split.
    + intros d Hd. by apply apply_orders_member.
    + apply apply_orders_other.
Qed.

Lemma onReorderSavedItems_updates_witness :
  let items := [Gallery.mk 2 7 "b" None (Some 1); Gallery.mk 1 7 "a" None (Some 2)] in
  let r := onReorderSavedItems items manager_two world_two in
  NoDup (orderPairs items).*1
  ∧ ∃ row', table r.2 !! 0%nat = Some row' ∧ Gallery.displayOrder row' = Some 2.
Proof.
  cbv zeta.
  assert (Hnd : NoDup (orderPairs [Gallery.mk 2 7 "b" None (Some 1);
                                   Gallery.mk 1 7 "a" None (Some 2)]).*1).
  { cbn. apply NoDup_cons. split; [|apply NoDup_singleton].
    intros H. apply list_elem_of_singleton in H. discriminate. }
  split; [exact Hnd|].
  destruct (proj2 (onReorderSavedItems_updates
                     [Gallery.mk 2 7 "b" None (Some 1); Gallery.mk 1 7 "a" None (Some 2)]
                     manager_two world_two)
              (λ _ _, eq_refl) Hnd 0%nat (Gallery.mk 1 7 "a" None (Some 2)) eq_refl)
    as (row' & Hrow & _ & Hd & _).
  exists row'. split; [exact Hrow|]. apply Hd. cbn. right. left.
Defined.

(** ** Editing pending images *)

Lemma digit_of_pretty (d : N) :
  (d < 10)%N → digit_of (pretty_N_char d) = Some (Z.of_N d).
Proof.
  intros Hd.
  assert (d = 0 ∨ d = 1 ∨ d = 2 ∨ d = 3 ∨ d = 4 ∨ d = 5 ∨ d = 6 ∨ d = 7 ∨ d = 8 ∨ d = 9)%N
    as Hcases by lia.
  repeat (destruct Hcases as [->|Hcases]; [reflexivity|]). by subst.
Qed.

(** Reading the digits that [pretty_N_go] writes in front of a string
    continues as if the number had been added to what was read before. *)
Lemma parse_digits_pretty (x : N) :
  ∃ n : nat, ∀ s acc,
    parse_digits acc (pretty_N_go x s) = parse_digits (acc * 10 ^ Z.of_nat n + Z.of_N x) s.
Proof.
  induction (N.lt_wf_0 x) as [x _ IH].
  destruct (decide (x = 0)%N) as [->|Hpos].
  - exists 0%nat. intros s acc. rewrite pretty_N_go_0. f_equal. lia.
  - destruct (IH (x `div` 10)%N) as [n Hn]; [apply N.div_lt; lia|].
    exists (S n). intros s acc. rewrite pretty_N_go_step by lia. rewrite Hn.
    cbn [parse_digits]. rewrite digit_of_pretty by (apply N.mod_lt; lia).
    f_equal. rewrite Nat2Z.inj_succ, Z.pow_succ_r by lia.
    pose proof (N.div_mod x 10 ltac:(lia)) as Hdm.
    assert (Z.of_N x = 10 * Z.of_N (x `div` 10) + Z.of_N (x `mod` 10)) by lia.
    lia.
Qed.

(** The text [pretty_N_go] writes for a positive number starts with a
    digit. *)
Lemma pretty_N_go_head (x : N) (s : string) :
  (0 < x)%N → ∃ c r d, pretty_N_go x s = String c r ∧ digit_of c = Some d.
Proof.
  revert s. induction (N.lt_wf_0 x) as [x _ IH]. intros s Hpos.
  rewrite pretty_N_go_step by done.
  destruct (decide (x `div` 10 = 0)%N) as [Hz|Hnz].
  - rewrite Hz, pretty_N_go_0. eexists _, _, _. split; [done|].
    apply digit_of_pretty, N.mod_lt. lia.
  - apply IH; [apply N.div_lt; lia|by apply N.neq_0_lt_0].
Qed.

Lemma digit_not_sign_or_space (c : ascii) (d : Z) :
  digit_of c = Some d →
  is_white c = false ∧ Ascii.eqb c "-" = false ∧ Ascii.eqb c "+" = false.
Proof.
  unfold digit_of, is_white. intros H.
  destruct (48 <=? nat_of_ascii c)%nat eqn:H1; [|done].
  destruct (nat_of_ascii c <=? 57)%nat eqn:H2; [|done].
  apply Nat.leb_le in H1, H2.
  split; [|split].
  - apply bool_decide_eq_false. rewrite !elem_of_cons, elem_of_nil. lia.
  - apply Ascii.eqb_neq. intros ->.
    assert (nat_of_ascii "-" = 45%nat) by reflexivity. lia.
  - apply Ascii.eqb_neq. intros ->.
    assert (nat_of_ascii "+" = 43%nat) by reflexivity. lia.
Qed.

Lemma parseInt10_pretty_N (x : N) (sign : Z) :
  (0 < x)%N →
  ∀ c r, pretty_N_go x "" = String c r →
  match digit_of c with
  | Some _ => Some (sign * parse_digits 0 (String c r))
  | None => None
  end = Some (sign * Z.of_N x).
Proof.
  intros Hpos c r Heq.
  destruct (pretty_N_go_head x "" Hpos) as (c' & r' & d & Heq' & Hd).
  rewrite Heq in Heq'. injection Heq' as <- <-. rewrite Hd, <- Heq.
  destruct (parse_digits_pretty x) as [n Hn]. rewrite Hn. cbn. f_equal; lia.
Qed.

(** [parseInt] reads back the decimal text of an integer. *)
Lemma parseInt10_pretty (z : Z) : parseInt10 (pretty z) = Some z.
Proof.
  destruct z as [|p|p]; [done| |].
  - unfold pretty, pretty_Z, pretty, pretty_positive, pretty, pretty_N.
    destruct (decide (N.pos p = 0%N)) as [|_]; [done|].
    destruct (pretty_N_go_head (N.pos p) "" ltac:(lia)) as (c & r & d & Heq & Hd).
    destruct (digit_not_sign_or_space c d Hd) as (Hw & Hm & Hp).
    unfold parseInt10. rewrite Heq. cbn [trim_start]. rewrite Hw, Hm, Hp.
    rewrite (parseInt10_pretty_N (N.pos p) 1 ltac:(lia) c r Heq). f_equal; lia.
  - unfold pretty, pretty_Z, pretty, pretty_positive, pretty, pretty_N.
    destruct (decide (N.pos p = 0%N)) as [|_]; [done|].
    destruct (pretty_N_go_head (N.pos p) "" ltac:(lia)) as (c & r & d & Heq & Hd).
    unfold parseInt10. rewrite Heq.
    change ("-" +:+ String c r) with (String "-" (String c r)).
    cbn [trim_start].
    change (is_white "-") with false. cbv iota. rewrite Ascii.eqb_refl.
    rewrite (parseInt10_pretty_N (N.pos p) (-1) ltac:(lia) c r Heq). f_equal; lia.
Qed.

(** X16: editing a pending image changes one field of one entry.  Setting
    the caption or the display order at an index that holds an entry keeps
    the length of the list, every other entry, and the URL and the other
    field of the entry itself; at an index without entry it throws.  The
    text typed for a display order is read as a decimal number: the decimal
    text of an integer (of a size that a number holds exactly) sets that
    integer, and a text without leading digits (after white space and a
    sign) changes nothing at all. *)
Theorem pending_edits_are_local (index : nat) (m : Manager) (p : PendingImage)
    (caption order : string) (z : Z) :
  pendingImages m !! index = Some p →
  Z.abs z < 2 ^ 53 →
  (∃ m1, handleUpdatePendingImageCaption index caption m = Some m1
         ∧ length (pendingImages m1) = length (pendingImages m)
         ∧ pendingImages m1 !! index
           = Some (Pending.mk (Pending.url p) caption (Pending.displayOrder p))
         ∧ ∀ j, j ≠ index → pendingImages m1 !! j = pendingImages m !! j)
  ∧ (∃ m2, handleUpdatePendingImageOrder index (pretty z) m = Some m2
           ∧ length (pendingImages m2) = length (pendingImages m)
           ∧ pendingImages m2 !! index
             = Some (Pending.mk (Pending.url p) (Pending.caption p) z)
           ∧ ∀ j, j ≠ index → pendingImages m2 !! j = pendingImages m !! j)
  ∧ (parseInt10 order = None → handleUpdatePendingImageOrder index order m = Some m)
  ∧ (∀ far, pendingImages m !! far = None →
            handleUpdatePendingImageCaption far caption m = None
            ∧ handleUpdatePendingImageOrder far (pretty z) m = None).
Proof.
  intros Hp _.
  assert (Hlt : (index < length (pendingImages m))%nat) by (by eapply lookup_lt_Some).
  split; [|split; [|split]].
  - unfold handleUpdatePendingImageCaption. rewrite Hp. eexists. split; [done|]. cbn.
    rewrite length_insert, list_lookup_insert_eq by done. repeat split.
    intros j Hj. by rewrite list_lookup_insert_ne.
  - unfold handleUpdatePendingImageOrder. rewrite parseInt10_pretty, Hp.
    eexists. split; [done|]. cbn.
    rewrite length_insert, list_lookup_insert_eq by done. repeat split.
    intros j Hj. by rewrite list_lookup_insert_ne.
  - intros Hnan. unfold handleUpdatePendingImageOrder. by rewrite Hnan.
  - intros far Hfar. unfold handleUpdatePendingImageCaption, handleUpdatePendingImageOrder.
    by rewrite parseInt10_pretty, Hfar.
Qed.

Lemma pending_edits_are_local_witness :
  pendingImages manager_three !! 1%nat = Some (Pending.mk "x2" "Project image 2" 2)
  ∧ parseInt10 "seven" = None
  ∧ handleUpdatePendingImageOrder 1 "seven" manager_three = Some manager_three
  ∧ ∃ m2, handleUpdatePendingImageOrder 1 (pretty 7) manager_three = Some m2
          ∧ pendingImages m2 !! 1%nat = Some (Pending.mk "x2" "Project image 2" 7).
Proof.
  split; [reflexivity|]. split; [reflexivity|].
  destruct (pending_edits_are_local 1 manager_three _ "" "seven" 7 eq_refl eq_refl)
    as (_ & (m2 & Hm2 & _ & Hat & _) & Hnan & _).
  split; [exact (Hnan eq_refl)|].
  exists m2. split; [exact Hm2 | exact Hat].
Defined.


(** ** An upload taken back *)

Lemma delete_length_snoc {A} (l : list A) (x : A) : delete (length l) (l ++ [x]) = l.
Proof. induction l as [|y l IH]; [done|]. cbn. f_equal. exact IH. Qed.

Lemma handleDeletePendingImage_result (index : nat) (m : Manager) (w : World)
    (p : PendingImage) :
  pendingImages m !! index = Some p →
  let r := handleDeletePendingImage index m w in
  r.1 = setShowMaxImagesWarning false (setPendingImages (delete index (pendingImages m)) m)
  ∧ localStorage r.2 = localStorage w
  ∧ log r.2
    = log w ++ (if truthy (Pending.url p) && negb (bool_decide (Pending.url p ∈ cachedUrls m))
                then [FilesCleanup (Pending.url p)
                        (cachedUrls m ++ (Pending.url <$> delete index (pendingImages m)))]
                else []).
Proof.
  intros Hp. cbv zeta. unfold handleDeletePendingImage. rewrite Hp. fold (cachedUrls m).
  destruct (truthy (Pending.url p)); cbn [andb]; [|by rewrite app_nil_r].
  case_bool_decide; cbn [negb]; [by rewrite app_nil_r|].
  unfold try_catch, filesCleanupCall, remote, ret.
  by destruct (fail_at w (clock w)).
Qed.

Lemma cleanup_all_store preserveUrls sessions w :
  localStorage (foldl (λ w sessionId, fire (cleanupUploadsCall sessionId preserveUrls) w)
                      w sessions)
  = localStorage w.
Proof.
  revert w. induction sessions as [|sessionId rest IH]; intros w; cbn; [done|].
  by rewrite IH, fire_cleanup.
Qed.

Lemma unmountCleanup_store (m : Manager) (w : World) :
  localStorage (unmountCleanup m w) = localStorage w.
Proof.
  unfold unmountCleanup. destruct (_ && _); [apply cleanup_all_store | done].
Qed.

Lemma rerender_pending_changed (prev next : Manager) (w : World) :
  pendingImages prev ≠ pendingImages next →
  rerender prev next w = mirrorEffect next (unmountCleanup prev w).
Proof.
  intros Hne. unfold rerender.
  destruct (decide (unmountEffectDeps prev = unmountEffectDeps next)) as [[= _ _ _ H]|_];
    [done|].
  by destruct (decide (mirrorEffectDeps prev = mirrorEffectDeps next)) as [[= H _]|_].
Qed.

Lemma mirrorEffect_log (m : Manager) (w : World) : log (mirrorEffect m w) = log w.
Proof. unfold mirrorEffect. by destruct (nonempty _). Qed.

Lemma snoc_ne {A} (l : list A) (x : A) : l ≠ l ++ [x].
Proof. intros H. apply (f_equal length) in H. rewrite length_app in H. cbn in H. lia. Qed.

(** X17: uploading one image when there is room and deleting it again, at
    the index it was given, with the re-render that follows each of the two.
    The pending list is restored, and so is the mirror, which ends as the
    mirror effect would have left it without the upload.  The requests made
    are, in order: after the toast of the upload, the cleanup calls of the
    render before the upload, one for every tracked session, which preserve
    the lists of that render and so not the new image; the cleanup request
    for the file of the image, made when its URL is not empty and not that of
    an image of the gallery the component holds, which preserves the URLs of
    that gallery and of the images still pending; the cleanup calls of the
    render before the deletion, one for every tracked session, which
    preserve the image just deleted. *)
Theorem upload_then_delete (u : string) (m : Manager) (w : World) :
  currentImageCount m + 1 ≤ MAX_GALLERY_IMAGES →
  let r1 := handleFileUpload (OneUrl u) m w in
  let w1 := rerender m r1.1 r1.2 in
  let r2 := handleDeletePendingImage (length (pendingImages m)) r1.1 w1 in
  let w2 := rerender r1.1 r2.1 r2.2 in
  pendingImages r2.1 = pendingImages m
  ∧ log w2
    = log w ++ [toastImagesAdded 1]
        ++ sessionCleanups m
        ++ (if truthy u && negb (bool_decide (u ∈ cachedUrls m))
            then [FilesCleanup u (cachedUrls m ++ (Pending.url <$> pendingImages m))]
            else [])
        ++ sessionCleanups r1.1
  ∧ projectPreserveUrls r1.1 = projectPreserveUrls m ++ [u]
  ∧ uploadSessions r1.1 = uploadSessions m
  ∧ localStorage w2 = localStorage (mirrorEffect m w).
Proof.
  intros Hroom r1 w1 r2 w2.
  set (e := Pending.mk u ("Project image " +:+ pretty (0 + 1)%nat)
                       (getNextOrderValue m + Z.of_nat 0)).
  assert (Hr1 : r1 = (setPendingImages (pendingImages m ++ [e]) m,
                      emit (toastImagesAdded 1)
                        (set_localStorage
                           (insert (mirror_key (projectId m))
                              (JSON_stringify (pendingImages m ++ [e]))) w))).
  { subst r1. unfold handleFileUpload. cbn [urls_of length].
    destruct (Z.ltb_spec MAX_GALLERY_IMAGES (currentImageCount m + Z.of_nat 1)); [lia|].
    done. }
  assert (Hp1 : pendingImages r1.1 = pendingImages m ++ [e]) by (by rewrite Hr1).
  assert (Hc1 : cachedUrls r1.1 = cachedUrls m) by (by rewrite Hr1).
  assert (Hid1 : projectId r1.1 = projectId m) by (by rewrite Hr1).
  assert (Hw1 : w1 = mirrorEffect r1.1 (unmountCleanup m r1.2)).
  { subst w1. apply rerender_pending_changed. rewrite Hp1. apply snoc_ne. }
  assert (Hl1 : log w1 = log w ++ [toastImagesAdded 1] ++ sessionCleanups m).
  { rewrite Hw1, mirrorEffect_log, unmountCleanup_log, Hr1. cbn.
    by rewrite <- app_assoc. }
  assert (Hs1 : localStorage w1
                = <[mirror_key (projectId m) := JSON_stringify (pendingImages m ++ [e])]>
                    (localStorage w)).
  { rewrite Hw1. unfold mirrorEffect. rewrite Hp1, Hid1.
    assert (nonempty (pendingImages m ++ [e]) = true) as ->
      by (by destruct (pendingImages m)).
    cbn. rewrite unmountCleanup_store, Hr1. cbn. apply insert_insert_eq. }
  assert (Hat : pendingImages r1.1 !! length (pendingImages m) = Some e).
  { rewrite Hp1. by rewrite lookup_app_r, Nat.sub_diag by lia. }
  destruct (handleDeletePendingImage_result _ _ w1 _ Hat) as (Hm2 & Hs2 & Hl2).
  fold r2 in Hm2, Hs2, Hl2.
  assert (Hp2 : pendingImages r2.1 = pendingImages m).
  { rewrite Hm2. cbn. by rewrite Hp1, delete_length_snoc. }
  assert (Hid2 : projectId r2.1 = projectId m) by (by rewrite Hm2).
  assert (Hw2 : w2 = mirrorEffect r2.1 (unmountCleanup r1.1 r2.2)).
  { subst w2. apply rerender_pending_changed. rewrite Hp1, Hp2.
    intros H. by apply (snoc_ne (pendingImages m) e). }
  split; [done|]. split; [|split; [|split]].
  - rewrite Hw2, mirrorEffect_log, unmountCleanup_log, Hl2, Hl1, Hc1, Hp1.
    rewrite delete_length_snoc. cbn [Pending.url e]. by rewrite <- !app_assoc.
  - unfold projectPreserveUrls. rewrite Hr1. cbn. by rewrite fmap_app, app_assoc.
  - by rewrite Hr1.
  - rewrite Hw2. unfold mirrorEffect. rewrite Hp2, Hid2.
    destruct (nonempty (pendingImages m)); cbn;
      rewrite unmountCleanup_store, Hs2, Hs1.
    + apply insert_insert_eq.
    + apply delete_insert_eq.
Qed.

Lemma upload_then_delete_witness :
  let r1 := handleFileUpload (OneUrl "n2") manager_dup quiet_world in
  let w1 := rerender manager_dup r1.1 r1.2 in
  let r2 := handleDeletePendingImage 2 r1.1 w1 in
  let w2 := rerender r1.1 r2.1 r2.2 in
  currentImageCount manager_dup + 1 ≤ MAX_GALLERY_IMAGES
  ∧ pendingImages r2.1 = pendingImages manager_dup
  ∧ log w2 = [toastImagesAdded 1;
              CleanupUploads "s1" ["a"; "a"; "n"];
              FilesCleanup "n2" ["a"; "a"; "n"];
              CleanupUploads "s1" ["a"; "a"; "n"; "n2"]].
Proof.
  cbv zeta.
  assert (H : currentImageCount manager_dup + 1 ≤ MAX_GALLERY_IMAGES)
    by (vm_compute; discriminate).
  split; [exact H|].
  destruct (upload_then_delete "n2" manager_dup quiet_world H) as (Hp & Hlog & _).
  split; [exact Hp | exact Hlog].
Defined.

(** ** The upload handler of the blog gallery manager *)

Lemma blogPaths_idle (b : Blog) :
  ¬ cleanup_guard b → ∀ paths w, blogPaths paths b w = (b, w).
Proof.
  intros Hno paths. induction paths as [|path rest IH]; intros w; [done|].
  cbn [blogPaths].
  destruct (blogPath_cases b w path) as [-> | [Hg _]]; [apply IH | by destruct Hno].
Qed.

Lemma filesToAdd_nonempty (fileUrl : UrlsArg) (files : list string) :
  filesToAdd fileUrl = Some files → files ≠ [].
Proof. destruct fileUrl as [u | [|u us]]; cbn; intros [= <-]; done. Qed.

Lemma addAndCommit_resolved (addGalleryImage : string → option string → Async unit)
    (files : list string) (caption : option string) (session : string)
    (w w1 : World) (r : unit) :
  addAndCommit addGalleryImage files caption session w = (Resolved r, w1) →
  last (log w1) = Some (CommitUploads session files).
Proof.
  unfold addAndCommit, mbind, Async_bind, bind.
  destruct (addAll _ _ _ w) as [[[]|e] w0]; [|discriminate].
  unfold commitUploadsCall, remote.
  destruct (fail_at w0 (clock w0)); [discriminate|].
  intros [= _ <-]. cbn. apply last_snoc.
Qed.

(** X18: whenever the upload handler of the blog gallery manager leaves the
    upload marked committed, it was given at least one file, every image was
    added and the commit, the last request the handler makes, names the
    session in use (the one passed, else the one of the state) and exactly
    the files of the call; the dialog is closed and the caption cleared.
    The render it leaves differs in [isCommitted] from the render in which
    the calls were pending, so React then runs the cleanup of the unmount
    effect of that render: when the session in use is not empty, one cleanup
    call for the session just committed follows the commit, preserving the
    gallery URLs the component held when the upload began; when it is empty,
    nothing follows. *)
Lemma blog_upload_committed (addGalleryImage : string → option string → Async unit)
    (fileUrl : UrlsArg) (sessionId : string) (f : BlogForm) (w : World) :
  let b := form_blog f in
  let session := uploadSessionFor sessionId b in
  let r := handleFileUploadComplete addGalleryImage fileUrl sessionId f w in
  isCommitted (form_blog r.1) = true →
  ∃ files,
    filesToAdd fileUrl = Some files
    ∧ r.1 = mkBlogForm (mkBlog false session files true (galleryImages b)) ""
    ∧ r.2 = (addAndCommit addGalleryImage files (captionOrNull f) session w).2
    ∧ last (log r.2) = Some (CommitUploads session files)
    ∧ log (blogRerender (uploadPending sessionId files b) (form_blog r.1) r.2).2
      = log r.2 ++ (if truthy session
                    then [CleanupUploads session (blogPreserveUrls b)]
                    else []).
Proof.
  cbv zeta. unfold handleFileUploadComplete.
  fold (uploadSessionFor sessionId (form_blog f)). fold (captionOrNull f).
  destruct (filesToAdd fileUrl) as [files|] eqn:Hfiles; [|by cbn].
  fold (addAndCommit addGalleryImage files (captionOrNull f)
          (uploadSessionFor sessionId (form_blog f))).
  destruct (addAndCommit _ _ _ _ w) as [[r|e] w1] eqn:Hrun.
  - intros _. exists files. cbn [fst snd form_blog].
    split; [done|]. split; [done|]. split; [by rewrite Hrun|].
    split; [by eapply addAndCommit_resolved|].
    unfold blogRerender, uploadPending. fold (uploadSessionFor sessionId (form_blog f)).
    destruct (decide (blogUnmountEffectDeps _ = blogUnmountEffectDeps _)) as [[=]|_].
    destruct (decide (dialogEffectDeps _ = dialogEffectDeps _)) as [[=]|_].
    unfold blogUnmount, cleanupUncommittedFiles, dialogClosedEffect, blogPreserveUrls.
    cbn [uploadSession isCommitted uploadedFiles galleryImages isAddDialogOpen
         negb andb].
    destruct (truthy (uploadSessionFor sessionId (form_blog f))); cbn [andb];
      [|by rewrite app_nil_r].
    destruct files as [|u us]; [by apply filesToAdd_nonempty in Hfiles|].
    cbn [nonempty]. unfold cleanupUploadsCall, remote.
    destruct (fail_at w1 (clock w1)); cbn; [done|].
    by destruct (poor_reply_at _ _).
  - destruct (cleanupUncommittedFiles (form_blog f) w1) as [b1 w2]. by cbn.
Qed.

Lemma blog_upload_committed_witness :
  let r := handleFileUploadComplete addGalleryImage_ok (ManyUrls ["u"]) "session_1"
             fresh_blog_form quiet_world in
  isCommitted (form_blog r.1) = true
  ∧ last (log r.2) = Some (CommitUploads "session_1" ["u"])
  ∧ log (blogRerender (uploadPending "session_1" ["u"] (form_blog fresh_blog_form))
           (form_blog r.1) r.2).2
    = log r.2 ++ [CleanupUploads "session_1" ["https://utfs.io/f/x.png"]].
Proof.
  cbv zeta.
  assert (H : isCommitted (form_blog (handleFileUploadComplete addGalleryImage_ok
                (ManyUrls ["u"]) "session_1" fresh_blog_form quiet_world).1) = true)
    by reflexivity.
  split; [exact H|].
  destruct (blog_upload_committed addGalleryImage_ok (ManyUrls ["u"]) "session_1"
              fresh_blog_form quiet_world H) as (files & Hf & _ & _ & Hlast & Hafter).
  cbn in Hf. injection Hf as <-.
  split; [exact Hlast | exact Hafter].
Defined.

(** X19: when an upload of the blog gallery manager fails (an image is not
    added, or the commit is rejected) in a render whose own state gives the
    cleanup nothing to do (no session yet, or the previous upload committed,
    or no file tracked), the handler's own cleanup does nothing: the files of
    the call stay tracked and uncommitted, the dialog and the caption are as
    they were, and, when the session in use is not empty, the next unmount
    asks for exactly one cleanup, of that session. *)
Lemma blog_upload_failed (addGalleryImage : string → option string → Async unit)
    (fileUrl : UrlsArg) (sessionId : string) (f : BlogForm) (w : World)
    (files : list string) (e : Error) (w1 : World) :
  let b := form_blog f in
  let session := uploadSessionFor sessionId b in
  let r := handleFileUploadComplete addGalleryImage fileUrl sessionId f w in
  filesToAdd fileUrl = Some files →
  addAndCommit addGalleryImage files (captionOrNull f) session w = (Rejected e, w1) →
  ¬ cleanup_guard b →
  r = (mkBlogForm (mkBlog (isAddDialogOpen b) session files false (galleryImages b))
                  (captionInput f), w1)
  ∧ (truthy session = true →
     ∀ w', log (blogUnmount (form_blog r.1) w').2
           = log w' ++ [CleanupUploads session (blogPreserveUrls b)]).
Proof.
  cbv zeta. intros Hfiles Hrun Hno.
  assert (Hr : handleFileUploadComplete addGalleryImage fileUrl sessionId f w
               = (mkBlogForm (mkBlog (isAddDialogOpen (form_blog f))
                                (uploadSessionFor sessionId (form_blog f)) files false
                                (galleryImages (form_blog f)))
                             (captionInput f), w1)).
  { unfold handleFileUploadComplete.
    fold (uploadSessionFor sessionId (form_blog f)). fold (captionOrNull f).
    rewrite Hfiles.
    fold (addAndCommit addGalleryImage files (captionOrNull f)
            (uploadSessionFor sessionId (form_blog f))).
    rewrite Hrun.
    destruct (cleanupUncommittedFiles_cases (form_blog f) w1) as [-> | [Hg _]];
      [|by destruct Hno].
    by rewrite andb_negb_r. }
  split; [exact Hr|].
  intros Hs w'. rewrite Hr. cbn [fst form_blog].
  unfold blogUnmount, cleanupUncommittedFiles, blogPreserveUrls. cbn.
  rewrite Hs.
  destruct files as [|u us]; [by apply filesToAdd_nonempty in Hfiles|]. cbn.
  unfold cleanupUploadsCall, remote.
  destruct (fail_at w' (clock w')); cbn; [done|].
  by destruct (poor_reply_at _ _).
Qed.

Lemma blog_upload_failed_witness :
  let r := handleFileUploadComplete addGalleryImage_rejected (OneUrl "u") "session_1"
             fresh_blog_form quiet_world in
  uploadedFiles (form_blog r.1) = ["u"]
  ∧ isCommitted (form_blog r.1) = false
  ∧ log (blogUnmount (form_blog r.1) r.2).2
    = [CleanupUploads "session_1" ["https://utfs.io/f/x.png"]].
Proof.
  cbv zeta.
  assert (Hno : ¬ cleanup_guard (form_blog fresh_blog_form))
    by (intros (H & _); discriminate H).
  destruct (blog_upload_failed addGalleryImage_rejected (OneUrl "u") "session_1"
              fresh_blog_form quiet_world ["u"] (RequestFailed 0) (tick quiet_world)
              eq_refl eq_refl Hno) as [Hr Hun].
  split; [by rewrite Hr|]. split; [by rewrite Hr|].
  rewrite (Hun eq_refl). by rewrite Hr.
Defined.

(** X20: the add dialog calls the upload handler of the blog gallery manager
    without a session identifier.  Called so in a state whose session is
    empty, the handler leaves the session empty (so this holds again for the
    next upload), makes no request besides adding the images and the commit,
    which it makes under the empty session, and, whether the upload succeeded
    or failed, neither the dialog-close effect nor the unmount ever asks for
    a cleanup afterwards. *)
Lemma blog_upload_without_session
    (addGalleryImage : string → option string → Async unit)
    (fileUrl : UrlsArg) (f : BlogForm) (w : World) :
  let r := handleFileUploadComplete addGalleryImage fileUrl "" f w in
  uploadSession (form_blog f) = "" →
  uploadSession (form_blog r.1) = ""
  ∧ (∀ files, filesToAdd fileUrl = Some files →
       r.2 = (addAndCommit addGalleryImage files (captionOrNull f) "" w).2)
  ∧ (filesToAdd fileUrl = None → r.2 = w)
  ∧ ∀ paths w', blogPaths paths (form_blog r.1) w' = (form_blog r.1, w').
Proof.
  cbv zeta. intros Hs.
  assert (Hidle : cleanupUncommittedFiles (form_blog f) = λ w1, (form_blog f, w1)).
  { unfold cleanupUncommittedFiles. by rewrite Hs. }
  unfold handleFileUploadComplete. fold (captionOrNull f). cbn [truthy]. rewrite Hs.
  destruct (filesToAdd fileUrl) as [files|] eqn:Hfiles.
  - fold (addAndCommit addGalleryImage files (captionOrNull f) "").
    destruct (addAndCommit _ _ _ _ w) as [[r|e] w1] eqn:Hrun.
    + cbn [fst snd form_blog uploadSession].
      split; [done|]. split; [by intros ? [= <-]; rewrite Hrun|]. split; [done|].
      apply blogPaths_idle. intros (H & _). discriminate H.
    + rewrite Hidle. cbn [fst snd form_blog uploadSession].
      split; [done|]. split; [by intros ? [= <-]; rewrite Hrun|]. split; [done|].
      apply blogPaths_idle. intros (H & _). discriminate H.
  - cbn [fst snd form_blog uploadSession].
    split; [done|]. split; [done|]. split; [done|].
    apply blogPaths_idle. intros (H & _). discriminate H.
Qed.

Lemma blog_upload_without_session_witness :
  let r := handleFileUploadComplete addGalleryImage_rejected (ManyUrls ["u"]) ""
             fresh_blog_form quiet_world in
  uploadSession (form_blog fresh_blog_form) = ""
  ∧ uploadedFiles (form_blog r.1) = ["u"]
  ∧ isCommitted (form_blog r.1) = false
  ∧ blogPaths [Unmount; DialogClosed] (form_blog r.1) r.2 = (form_blog r.1, r.2).
Proof.
  cbv zeta.
  destruct (blog_upload_without_session addGalleryImage_rejected (ManyUrls ["u"])
              fresh_blog_form quiet_world eq_refl) as (_ & _ & _ & Hidle).
  split; [reflexivity|]. split; [reflexivity|]. split; [reflexivity|].
  apply Hidle.
Defined.

(** ** The team members hook *)

(** X21: without admin rights none of the five functions of the team members
    hook sends a request or invalidates a list: each only shows one
    destructive toast titled Permission denied; and neither the full list nor
    the single member is queried. *)
Lemma team_calls_need_admin {D : Type} (c : TeamCall D) (a : TeamAnswer)
    (teamMemberId : option nat) :
  let events := teamCall false c a in
  requests_of events = []
  ∧ invalidations_of events = []
  ∧ (∃ text, text ≠ ""
       ∧ events = [Toasted (mkToast "Permission denied" text VDestructive)])
  ∧ allEnabled teamMemberId false = false
  ∧ memberEnabled teamMemberId false = false.
Proof.
  cbv zeta. split; [by destruct c|]. split; [by destruct c|].
  split; [by destruct c; eexists; (split; [|reflexivity])|].
  unfold allEnabled, memberEnabled. by rewrite !andb_false_r.
Qed.

(** X22: with admin rights each of the five functions of the team members
    hook sends exactly its one request, then shows exactly one toast with a
    text that is not empty.  The two lists (the admin one, then the public
    one) are invalidated exactly when the request succeeded; when it failed
    the toast is destructive and reads the message of the error, unless that
    is empty. *)
Lemma team_call_outcome {D : Type} (c : TeamCall D) (a : TeamAnswer) :
  let events := teamCall true c a in
  requests_of events = [request_of c]
  ∧ invalidations_of events
    = match a with
      | Succeeded => ["/api/admin/team-members"; "/api/team-members"]
      | Failed _ => []
      end
  ∧ ∃ t, toasts_of events = [t]
      ∧ description t ≠ ""
      ∧ last events = Some (Toasted t)
      ∧ match a with
        | Succeeded => title t = "Success" ∧ variant t = VDefault
        | Failed message =>
            title t = "Error" ∧ variant t = VDestructive
            ∧ (message ≠ "" → description t = message)
        end.
Proof.
  cbv zeta. split; [by destruct c, a|]. split; [by destruct c, a|].
  destruct a as [|message].
  - destruct c; eexists; (split; [reflexivity|]); cbn; done.
  - destruct message as [|ch rest].
    + destruct c; eexists; (split; [reflexivity|]); cbn; done.
    + destruct c; eexists; (split; [reflexivity|]); cbn; done.
Qed.

(** ** The request log of the server *)

Lemma startsWith_spec (s prefix : list N) :
  startsWith s prefix = true ↔ ∃ rest, s = prefix ++ rest.
Proof.
  unfold startsWith. rewrite bool_decide_eq_true. split.
  - intros H. exists (drop (length prefix) s). by rewrite <- H at 1; rewrite take_drop.
  - intros [rest ->]. by rewrite take_app_length.
Qed.

(** X23: the server logs a request exactly when its path starts with /api,
    and the line it logs is never longer than 80 code units: it is the full
    line (method, path, status, duration, body) when that has at most 80,
    and otherwise has exactly 80, the first 79 of the full line and an
    ellipsis.  In both cases it agrees with the full line on the first 79. *)
Lemma request_log_line_bounded (method path : list N) (statusCode duration : Z)
    (capturedJsonResponse : option (list N)) :
  let full := fullLogLine method path statusCode duration capturedJsonResponse in
  let logged := requestLogLine method path statusCode duration capturedJsonResponse in
  (logged = None ↔ ¬ ∃ rest, path = units "/api" ++ rest)
  ∧ ∀ line, logged = Some line →
      (length line ≤ 80)%nat
      ∧ take 79 line = take 79 full
      ∧ ((length full ≤ 80)%nat → line = full)
      ∧ ((80 < length full)%nat → length line = 80%nat ∧ last line = Some ELLIPSIS).
Proof.
  cbv zeta. unfold requestLogLine.
  set (full := fullLogLine _ _ _ _ _).
  rewrite <- startsWith_spec.
  destruct (startsWith path (units "/api")).
  - split; [split; [done | by intros []]|].
    intros line [= <-].
    destruct (Nat.ltb_spec 80 (length full)) as [Hlong | Hshort].
    + assert (Hlen : length (take 79 full) = 79%nat) by (rewrite length_take; lia).
      split; [rewrite length_app, Hlen; cbn; lia|].
      split; [by rewrite take_app_length' by done|].
      split; [lia|]. intros _.
      split; [rewrite length_app, Hlen; by cbn | apply last_snoc].
    + split; [done|]. split; [done|]. split; [done|]. lia.
  - split; [split; [by intros _ [=] | done]|]. by intros line [=].
Qed.
